(** * The lazy query builder of [src/client.ts]

    A shallow embedding of the [BaseClient] constructor and of the
    deferred and terminal methods of the generated wrapper classes
    ([Container], [Directory], [File], [EnvVariable], [Port], [Client],
    [Secret]), as they are in [src/client.ts]. The older copy of the client has the same
    constructor and the same deferred methods; its terminal methods have
    no cached fields.

    Conventions of the embedding.
    - A JavaScript string is the list of its UTF-16 code units ([jsstring]).
    - [QueryTree[]] arrays live in a heap and are handled by reference, so
      that aliasing and in-place mutation would be visible.
    - Argument values and operation nodes are immutable snapshots.
    - A JavaScript number is modelled by an integer ([VNum]); NaN and
      fractions are outside the model.
    - An [async] method runs to completion in a state-and-exception monad;
      a rejected promise is a [Throw]. *)

From Stdlib Require Import ZArith NArith Ascii String.
From stdpp Require Import gmap list.

#[local] Set Warnings "-register-all".

Open Scope N_scope.

(** ** JavaScript strings *)

Definition jsstring := list N.

Definition js (s : string) : jsstring :=
  N_of_ascii <$> list_ascii_of_string s.

(** [String.prototype.startsWith]. *)
Fixpoint startsWith (s p : jsstring) : bool :=
  match p, s with
  | [], _ => true
  | _ :: _, [] => false
  | c :: p', d :: s' => (c =? d) && startsWith s' p'
  end.

(** [s.split(sep)[0]] for a one-unit separator: the part of [s] before
    the first occurrence of [sep], all of [s] when there is none. *)
Fixpoint split_head (sep : N) (s : jsstring) : jsstring :=
  match s with
  | [] => []
  | c :: s' => if c =? sep then [] else c :: split_head sep s'
  end.

(** ** Regular expressions (Brzozowski derivatives) *)

Inductive regex : Type :=
| RNone
| REps
| RChar (c : N)
| RRange (lo hi : N)
| RSeq (r1 r2 : regex)
| RAlt (r1 r2 : regex)
| RStar (r : regex).

Fixpoint nullable (r : regex) : bool :=
  match r with
  | RNone => false
  | REps => true
  | RChar _ => false
  | RRange _ _ => false
  | RSeq r1 r2 => nullable r1 && nullable r2
  | RAlt r1 r2 => nullable r1 || nullable r2
  | RStar _ => true
  end.

Fixpoint deriv (c : N) (r : regex) : regex :=
  match r with
  | RNone => RNone
  | REps => RNone
  | RChar d => if c =? d then REps else RNone
  | RRange lo hi => if (lo <=? c) && (c <=? hi) then REps else RNone
  | RSeq r1 r2 =>
      if nullable r1
      then RAlt (RSeq (deriv c r1) r2) (deriv c r2)
      else RSeq (deriv c r1) r2
  | RAlt r1 r2 => RAlt (deriv c r1) (deriv c r2)
  | RStar r1 => RSeq (deriv c r1) (RStar r1)
  end.

(** Does some prefix of [s] belong to the language of [r]? *)
Fixpoint prefix_match (r : regex) (s : jsstring) : bool :=
  nullable r ||
  match s with
  | [] => false
  | c :: s' => prefix_match (deriv c r) s'
  end.

(** [s.match(r)] for a pattern without anchors or flags is truthy exactly
    when a match starts at some position of [s]. *)
Fixpoint regex_search (r : regex) (s : jsstring) : bool :=
  prefix_match r s ||
  match s with
  | [] => false
  | _ :: s' => regex_search r s'
  end.

(** [r{1,3}] and [r{3}]. *)
Definition rep_1_3 (r : regex) : regex :=
  RSeq r (RAlt REps (RSeq r (RAlt REps r))).

Definition rep_3 (r : regex) : regex := RSeq r (RSeq r r).

Definition digit : regex := RRange 48 57.

(** The literal [/(?:[0-9]{1,3}\.){3}[0-9]{1,3}/] of the constructor. *)
Definition ipv4_pattern : regex :=
  RSeq (rep_3 (RSeq (rep_1_3 digit) (RChar 46))) (rep_1_3 digit).

(** ** [btoa] *)

Inductive Exn : Type :=
| InvalidCharacterError   (* btoa on a code unit above 0xFF *)
| TypeError               (* property of undefined, map on a non-array *)
| RemoteError (msg : jsstring)   (* computeQuery rejected *)
| DanglingReference.      (* a reference outside the heap: never in JS *)

Inductive Result (A : Type) : Type :=
| Ok (a : A)
| Throw (e : Exn).
Arguments Ok {A} a.
Arguments Throw {A} e.

Definition b64_alphabet : jsstring :=
  js "ABCDEFGHIJKLMNOPQRSTUVWXYZabcdefghijklmnopqrstuvwxyz0123456789+/".

Definition b64_digit (n : N) : N := nth (N.to_nat n) b64_alphabet 0.

Fixpoint b64_encode (bs : list N) : jsstring :=
  match bs with
  | [] => []
  | [a] =>
      [b64_digit (N.shiftr a 2);
       b64_digit (N.shiftl (N.land a 3) 4);
       61; 61]
  | [a; b] =>
      [b64_digit (N.shiftr a 2);
       b64_digit (N.lor (N.shiftl (N.land a 3) 4) (N.shiftr b 4));
       b64_digit (N.shiftl (N.land b 15) 2);
       61]
  | a :: b :: c :: rest =>
      b64_digit (N.shiftr a 2)
      :: b64_digit (N.lor (N.shiftl (N.land a 3) 4) (N.shiftr b 4))
      :: b64_digit (N.lor (N.shiftl (N.land b 15) 2) (N.shiftr c 6))
      :: b64_digit (N.land c 63)
      :: b64_encode rest
  end.

Definition latin1 (s : jsstring) : bool := forallb (fun c => c <=? 255) s.

Definition btoa (s : jsstring) : Result jsstring :=
  if latin1 s then Ok (b64_encode s) else Throw InvalidCharacterError.


(** ** Data model *)

Definition loc := nat.

Record GraphQLClient : Type := {
  url : jsstring;
  headers : list (jsstring * jsstring)
}.

Record BaseClient : Type := {
  _queryTree : loc;
  client : GraphQLClient;
  clientHost : jsstring;
  sessionToken : jsstring
}.

Inductive ClassName : Type :=
| CContainer | CDirectory | CFile | CEnvVariable | CPort | CSecret | CSocket.

(** What an [unknown] argument, a cached field or a response can hold.
    [VObj] is a Chainable Object passed as an argument, given by its class
    and its [BaseClient] part; nothing in the client reads it. *)
Inductive Value : Type :=
| VUndefined
| VNull
| VBool (b : bool)
| VNum (z : Z)
| VStr (s : jsstring)
| VArr (items : list Value)
| VRec (fields : list (jsstring * Value))
| VObj (cls : ClassName) (obj : BaseClient).

(** The type [QueryTree]: one operation node. *)
Record QueryTree : Type := {
  operation : jsstring;
  args : option (list (jsstring * Value))
}.

Record ClientConfig : Type := {
  queryTree : option loc;
  host : option jsstring;
  cfg_sessionToken : option jsstring
}.

(** A call of [computeQuery]: the tree as it is when the call is made,
    and the transport it is sent over. *)
Record Request : Type := {
  req_tree : list QueryTree;
  req_client : GraphQLClient
}.

(** Everything outside the object graph: the heap of [QueryTree[]]
    arrays, the process environment read through [Deno.env], the remote
    engine (its answer may depend on what it was sent before) and the
    requests sent so far. *)
Record World : Type := {
  heap : gmap loc (list QueryTree);
  env : jsstring -> option jsstring;
  remote : list Request -> Request -> Result Value;
  sent : list Request
}.

(** ** The monad of method bodies *)

Definition M (A : Type) : Type := World -> Result A * World.

Definition ret {A} (a : A) : M A := fun w => (Ok a, w).

Definition throw {A} (e : Exn) : M A := fun w => (Throw e, w).

Definition bind {A B} (m : M A) (k : A -> M B) : M B :=
  fun w =>
    match m w with
    | (Ok a, w') => k a w'
    | (Throw e, w') => (Throw e, w')
    end.

Definition lift {A} (r : Result A) : M A := fun w => (r, w).

Declare Scope js_scope.
Delimit Scope js_scope with M.
Notation "x <- m ;; k" := (bind m (fun x => k))
  (at level 100, m at next level, right associativity) : js_scope.
Open Scope js_scope.

Fixpoint mapM {A B} (f : A -> M B) (l : list A) : M (list B) :=
  match l with
  | [] => ret []
  | a :: l' => b <- f a ;; bs <- mapM f l' ;; ret (b :: bs)
  end.

(** ** Primitive operations *)

(** An array literal: a new array at an address not in use. *)
Definition new_array (t : list QueryTree) : M loc :=
  fun w =>
    let l := fresh (dom (heap w)) in
    (Ok l, {| heap := <[l := t]> (heap w); env := env w;
              remote := remote w; sent := sent w |}).

Definition read_array (l : loc) : M (list QueryTree) :=
  fun w =>
    match heap w !! l with
    | Some t => (Ok t, w)
    | None => (Throw DanglingReference, w)
    end.

(** The literal [[...a, n1, ..., nk]]: the elements of [a] are read and
    copied into a new array, followed by the new nodes. *)
Definition spread_literal (a : loc) (nodes : list QueryTree) : M loc :=
  t <- read_array a ;; new_array (t ++ nodes).

(** [Deno.env.get], [undefined] for a variable that is not set;
    [Deno.env.has] is whether it is set. *)
Definition env_get (name : jsstring) : M (option jsstring) :=
  fun w => (Ok (env w name), w).

(** [s || d] on an optional string: [undefined] and the empty string are
    falsy. *)
Definition or_else (s : option jsstring) (d : jsstring) : jsstring :=
  match s with
  | Some (c :: s') => c :: s'
  | Some [] => d
  | None => d
  end.

(** String conversion of an optional string in [x + ":"] and in a
    template literal. *)
Definition to_string (s : option jsstring) : jsstring :=
  match s with
  | Some s' => s'
  | None => js "undefined"
  end.

(** ToBoolean. *)
Definition truthy (v : Value) : bool :=
  match v with
  | VUndefined => false
  | VNull => false
  | VBool b => b
  | VNum z => negb (z =? 0)%Z
  | VStr s => match s with [] => false | _ :: _ => true end
  | VArr _ => true
  | VRec _ => true
  | VObj _ _ => true
  end.

(** Setting a property of an object literal: a key that is already there
    keeps its place and takes the new value, a new key goes last. *)
Fixpoint set_prop (k : jsstring) (v : Value) (o : list (jsstring * Value))
  : list (jsstring * Value) :=
  match o with
  | [] => [(k, v)]
  | (k', v') :: o' =>
      if decide (k' = k) then (k, v) :: o' else (k', v') :: set_prop k v o'
  end.

(** [{...o, ...opts}]: spreading [undefined] adds nothing. *)
Definition spread_props (opts : option (list (jsstring * Value)))
  (o : list (jsstring * Value)) : list (jsstring * Value) :=
  match opts with
  | Some ps => fold_left (fun acc kv => set_prop kv.1 kv.2 acc) ps o
  | None => o
  end.

(** The value of [r.k] when [r] is neither [undefined] nor [null]: the
    property of a record, [undefined] when it has none of that name. *)
Definition field (r : Value) (k : jsstring) : Value :=
  match r with
  | VRec fields =>
      match list_find (fun kv => kv.1 = k) fields with
      | Some (_, (_, v)) => v
      | None => VUndefined
      end
  | _ => VUndefined
  end.

(** [r.k]. *)
Definition get_prop (r : Value) (k : jsstring) : M Value :=
  match r with
  | VUndefined | VNull => throw TypeError
  | _ => ret (field r k)
  end.

(** [response.map(f)]. *)
Definition array_map {B} (response : Value) (f : Value -> M B) : M (list B) :=
  match response with
  | VArr items => mapM f items
  | _ => throw TypeError
  end.

(** [computeQuery(tree, client)] of [utils.ts], which is not part of the
    modelled file: one request to the remote engine, recorded in [sent],
    answered by [remote]. It reads the tree and leaves the heap alone.
    What the resolver does on its own for a Chainable Object it finds in
    the arguments is inside [remote] and is not recorded: [sent] lists the
    trees the methods hand over, not the traffic. *)
Definition computeQuery (tree : loc) (c : GraphQLClient) : M Value :=
  fun w =>
    match heap w !! tree with
    | Some t =>
        let rq := {| req_tree := t; req_client := c |} in
        (remote w (sent w) rq,
         {| heap := heap w; env := env w; remote := remote w;
            sent := sent w ++ [rq] |})
    | None => (Throw DanglingReference, w)
    end.

(** ** [BaseClient] *)

Definition FLUENTCI_SESSION_ID : jsstring := js "FLUENTCI_SESSION_ID".

Definition default_host : jsstring := js "127.0.0.1:8080".

Definition colon : N := 58.

Definition scheme_of (clientHost : jsstring) : jsstring :=
  if startsWith clientHost (js "localhost")
     || regex_search ipv4_pattern (split_head colon clientHost)
  then js "http"
  else js "https".

Definition url_of (scheme clientHost : jsstring) (session : option jsstring)
  : jsstring :=
  match session with
  | Some id => scheme ++ js "://" ++ clientHost ++ js "/query?id=" ++ id
  | None => scheme ++ js "://" ++ clientHost ++ js "/query"
  end.

Definition empty_config : ClientConfig :=
  {| queryTree := None; host := None; cfg_sessionToken := None |}.

(** The constructor; [None] is a call without argument. *)
Definition BaseClient_new (parent : option ClientConfig) : M BaseClient :=
  let cfg := default empty_config parent in
  qt <- match queryTree cfg with
        | Some l => ret l
        | None => new_array []
        end ;;
  let clientHost := or_else (host cfg) default_host in
  let sessionToken := or_else (cfg_sessionToken cfg) [] in
  let scheme := scheme_of clientHost in
  session <- env_get FLUENTCI_SESSION_ID ;;
  let url := url_of scheme clientHost session in
  auth <- lift (btoa (to_string (cfg_sessionToken cfg) ++ js ":")) ;;
  ret {| _queryTree := qt;
         client := {| url := url;
                      headers :=
                        [(js "Authorization", js "Basic " ++ auth);
                         (js "X-FluentCI-Session-ID", or_else session [])] |};
         clientHost := clientHost;
         sessionToken := sessionToken |}.

(** ** The wrapper classes

    Each class extends [BaseClient] with the scalar fields its constructor
    takes after [parent]. *)

Module Container.
Record t : Type := {
  base : BaseClient;
  _id : Value;
  _endpoint : Value;
  _envVariable : Value;
  _export : Value;
  _hostname : Value;
  _imageRef : Value;
  _label : Value;
  _platform : Value;
  _publish : Value;
  _shellEndpoint : Value;
  _stderr : Value;
  _stdout : Value;
  _sync : Value;
  _user : Value;
  _workdir : Value
}.
End Container.

Module Directory.
Record t : Type := {
  base : BaseClient;
  _id : Value;
  _export : Value;
  _sync : Value
}.
End Directory.

Module File.
Record t : Type := {
  base : BaseClient;
  _id : Value;
  _contents : Value;
  _export : Value;
  _size : Value;
  _sync : Value
}.
End File.

Module EnvVariable.
Record t : Type := {
  base : BaseClient;
  _name : Value;
  _value : Value
}.
End EnvVariable.

Module Port.
Record t : Type := {
  base : BaseClient;
  _description : Value;
  _port : Value;
  _protocol : Value
}.
End Port.

(** The constructors: [super(parent)], then the fields. *)

Definition Container_new (parent : option ClientConfig)
  (_id _endpoint _envVariable _export _hostname _imageRef _label _platform _publish _shellEndpoint _stderr _stdout _sync _user _workdir : Value) : M Container.t :=
  b <- BaseClient_new parent ;;
  ret {| Container.base := b;
         Container._id := _id;
         Container._endpoint := _endpoint;
         Container._envVariable := _envVariable;
         Container._export := _export;
         Container._hostname := _hostname;
         Container._imageRef := _imageRef;
         Container._label := _label;
         Container._platform := _platform;
         Container._publish := _publish;
         Container._shellEndpoint := _shellEndpoint;
         Container._stderr := _stderr;
         Container._stdout := _stdout;
         Container._sync := _sync;
         Container._user := _user;
         Container._workdir := _workdir |}.

(** [new Container(parent)]: the cached fields stay [undefined]. *)
Definition Container_of (parent : option ClientConfig) : M Container.t :=
  Container_new parent VUndefined VUndefined VUndefined VUndefined VUndefined VUndefined VUndefined VUndefined VUndefined VUndefined VUndefined VUndefined VUndefined VUndefined VUndefined.

Definition Directory_new (parent : option ClientConfig)
  (_id _export _sync : Value) : M Directory.t :=
  b <- BaseClient_new parent ;;
  ret {| Directory.base := b;
         Directory._id := _id;
         Directory._export := _export;
         Directory._sync := _sync |}.

(** [new Directory(parent)]: the cached fields stay [undefined]. *)
Definition Directory_of (parent : option ClientConfig) : M Directory.t :=
  Directory_new parent VUndefined VUndefined VUndefined.

Definition File_new (parent : option ClientConfig)
  (_id _contents _export _size _sync : Value) : M File.t :=
  b <- BaseClient_new parent ;;
  ret {| File.base := b;
         File._id := _id;
         File._contents := _contents;
         File._export := _export;
         File._size := _size;
         File._sync := _sync |}.

(** [new File(parent)]: the cached fields stay [undefined]. *)
Definition File_of (parent : option ClientConfig) : M File.t :=
  File_new parent VUndefined VUndefined VUndefined VUndefined VUndefined.

Definition EnvVariable_new (parent : option ClientConfig)
  (_name _value : Value) : M EnvVariable.t :=
  b <- BaseClient_new parent ;;
  ret {| EnvVariable.base := b;
         EnvVariable._name := _name;
         EnvVariable._value := _value |}.

(** [new EnvVariable(parent)]: the cached fields stay [undefined]. *)
Definition EnvVariable_of (parent : option ClientConfig) : M EnvVariable.t :=
  EnvVariable_new parent VUndefined VUndefined.

Definition Port_new (parent : option ClientConfig)
  (_description _port _protocol : Value) : M Port.t :=
  b <- BaseClient_new parent ;;
  ret {| Port.base := b;
         Port._description := _description;
         Port._port := _port;
         Port._protocol := _protocol |}.

(** [new Port(parent)]: the cached fields stay [undefined]. *)
Definition Port_of (parent : option ClientConfig) : M Port.t :=
  Port_new parent VUndefined VUndefined VUndefined.


(** The object literal [{ queryTree: qt, host: this.clientHost,
    sessionToken: this.sessionToken }]. *)
Definition child_config (qt : loc) (this : BaseClient) : option ClientConfig :=
  Some {| queryTree := Some qt;
          host := Some (clientHost this);
          cfg_sessionToken := Some (sessionToken this) |}.

(** ** Deferred methods of [Container] *)

Definition build_node (context : Directory.t)
  (opts : option (list (jsstring * Value))) : QueryTree :=
  {| operation := js "build";
     args := Some (spread_props opts
                     [(js "context", VObj CDirectory (Directory.base context))]) |}.

Definition Container_build (this : Container.t) (context : Directory.t)
  (opts : option (list (jsstring * Value))) : M Container.t :=
  qt <- spread_literal (_queryTree (Container.base this))
          [build_node context opts] ;;
  Container_of (child_config qt (Container.base this)).

Definition directory_node (path : jsstring) : QueryTree :=
  {| operation := js "directory"; args := Some [(js "path", VStr path)] |}.

Definition Container_directory (this : Container.t) (path : jsstring)
  : M Directory.t :=
  qt <- spread_literal (_queryTree (Container.base this))
          [directory_node path] ;;
  Directory_of (child_config qt (Container.base this)).

Definition file_node (path : jsstring) : QueryTree :=
  {| operation := js "file"; args := Some [(js "path", VStr path)] |}.

Definition Container_file (this : Container.t) (path : jsstring) : M File.t :=
  qt <- spread_literal (_queryTree (Container.base this)) [file_node path] ;;
  File_of (child_config qt (Container.base this)).

Definition from_node (address : jsstring) : QueryTree :=
  {| operation := js "from"; args := Some [(js "address", VStr address)] |}.

Definition Container_from (this : Container.t) (address : jsstring)
  : M Container.t :=
  qt <- spread_literal (_queryTree (Container.base this))
          [from_node address] ;;
  Container_of (child_config qt (Container.base this)).

Definition withExec_node (args : list jsstring)
  (opts : option (list (jsstring * Value))) : QueryTree :=
  {| operation := js "withExec";
     args := Some (spread_props opts [(js "args", VArr (VStr <$> args))]) |}.

Definition Container_withExec (this : Container.t) (args : list jsstring)
  (opts : option (list (jsstring * Value))) : M Container.t :=
  qt <- spread_literal (_queryTree (Container.base this))
          [withExec_node args opts] ;;
  Container_of (child_config qt (Container.base this)).

Definition withWorkdir_node (path : jsstring) : QueryTree :=
  {| operation := js "withWorkdir"; args := Some [(js "path", VStr path)] |}.

Definition Container_withWorkdir (this : Container.t) (path : jsstring)
  : M Container.t :=
  qt <- spread_literal (_queryTree (Container.base this))
          [withWorkdir_node path] ;;
  Container_of (child_config qt (Container.base this)).

(** ** Terminal methods *)

(** The getter [queryTree]. *)
Definition get_queryTree (this : BaseClient) : loc := _queryTree this.

Definition leaf (name : string) : QueryTree :=
  {| operation := js name; args := None |}.

Definition Container_id (this : Container.t) : M Value :=
  if truthy (Container._id this) then ret (Container._id this)
  else
    qt <- spread_literal (_queryTree (Container.base this)) [leaf "id"] ;;
    computeQuery qt (client (Container.base this)).

Definition Container_envVariables (this : Container.t)
  : M (list EnvVariable.t) :=
  qt <- spread_literal (_queryTree (Container.base this))
          [leaf "envVariables"; leaf "name value"] ;;
  response <- computeQuery qt (client (Container.base this)) ;;
  array_map response (fun r =>
    name <- get_prop r (js "name") ;;
    value <- get_prop r (js "value") ;;
    EnvVariable_new
      (child_config (get_queryTree (Container.base this)) (Container.base this))
      name value).

(** The constant [metadata] of [export] and [publish]. *)
Definition compression_metadata : Value :=
  VRec [(js "forcedCompression", VRec [(js "is_enum", VBool true)]);
        (js "mediaTypes", VRec [(js "is_enum", VBool true)])].

Definition export_node (path : jsstring)
  (opts : option (list (jsstring * Value))) : QueryTree :=
  {| operation := js "export";
     args := Some (set_prop (js "__metadata") compression_metadata
                     (spread_props opts [(js "path", VStr path)])) |}.

Definition Container_export (this : Container.t) (path : jsstring)
  (opts : option (list (jsstring * Value))) : M Value :=
  if truthy (Container._export this) then ret (Container._export this)
  else
    qt <- spread_literal (_queryTree (Container.base this))
            [export_node path opts] ;;
    computeQuery qt (client (Container.base this)).

Definition Container_exposedPorts (this : Container.t) : M (list Port.t) :=
  qt <- spread_literal (_queryTree (Container.base this))
          [leaf "exposedPorts"; leaf "description port protocol"] ;;
  response <- computeQuery qt (client (Container.base this)) ;;
  array_map response (fun r =>
    description <- get_prop r (js "description") ;;
    port <- get_prop r (js "port") ;;
    protocol <- get_prop r (js "protocol") ;;
    Port_new
      (child_config (get_queryTree (Container.base this)) (Container.base this))
      description port protocol).

Definition publish_node (address : jsstring)
  (opts : option (list (jsstring * Value))) : QueryTree :=
  {| operation := js "publish";
     args := Some (set_prop (js "__metadata") compression_metadata
                     (spread_props opts [(js "address", VStr address)])) |}.

Definition Container_publish (this : Container.t) (address : jsstring)
  (opts : option (list (jsstring * Value))) : M Value :=
  if truthy (Container._publish this) then ret (Container._publish this)
  else
    qt <- spread_literal (_queryTree (Container.base this))
            [publish_node address opts] ;;
    computeQuery qt (client (Container.base this)).

Definition EnvVariable_name (this : EnvVariable.t) : M Value :=
  if truthy (EnvVariable._name this) then ret (EnvVariable._name this)
  else
    qt <- spread_literal (_queryTree (EnvVariable.base this)) [leaf "name"] ;;
    computeQuery qt (client (EnvVariable.base this)).

Definition EnvVariable_value (this : EnvVariable.t) : M Value :=
  if truthy (EnvVariable._value this) then ret (EnvVariable._value this)
  else
    qt <- spread_literal (_queryTree (EnvVariable.base this)) [leaf "value"] ;;
    computeQuery qt (client (EnvVariable.base this)).

Definition File_size (this : File.t) : M Value :=
  if truthy (File._size this) then ret (File._size this)
  else
    qt <- spread_literal (_queryTree (File.base this)) [leaf "size"] ;;
    computeQuery qt (client (File.base this)).

Definition Port_port (this : Port.t) : M Value :=
  if truthy (Port._port this) then ret (Port._port this)
  else
    qt <- spread_literal (_queryTree (Port.base this)) [leaf "port"] ;;
    computeQuery qt (client (Port.base this)).

(** ** Method calls as data

    The deferred calls on a [Container] and the cached terminal accessors,
    with the receiver, so that a statement can range over all of them. *)

Inductive Obj : Type :=
| OContainer (o : Container.t)
| ODirectory (o : Directory.t)
| OFile (o : File.t).

Definition obj_base (o : Obj) : BaseClient :=
  match o with
  | OContainer c => Container.base c
  | ODirectory d => Directory.base d
  | OFile f => File.base f
  end.

Inductive Deferred : Type :=
| Build (context : Directory.t) (opts : option (list (jsstring * Value)))
| GetDirectory (path : jsstring)
| GetFile (path : jsstring)
| From (address : jsstring)
| WithExec (args : list jsstring) (opts : option (list (jsstring * Value)))
| WithWorkdir (path : jsstring).

Definition invoke (this : Container.t) (d : Deferred) : M Obj :=
  match d with
  | Build context opts =>
      o <- Container_build this context opts ;; ret (OContainer o)
  | GetDirectory path => o <- Container_directory this path ;; ret (ODirectory o)
  | GetFile path => o <- Container_file this path ;; ret (OFile o)
  | From address => o <- Container_from this address ;; ret (OContainer o)
  | WithExec args opts =>
      o <- Container_withExec this args opts ;; ret (OContainer o)
  | WithWorkdir path =>
      o <- Container_withWorkdir this path ;; ret (OContainer o)
  end.

(** The node a deferred call appends. *)
Definition node_of (d : Deferred) : QueryTree :=
  match d with
  | Build context opts => build_node context opts
  | GetDirectory path => directory_node path
  | GetFile path => file_node path
  | From address => from_node address
  | WithExec args opts => withExec_node args opts
  | WithWorkdir path => withWorkdir_node path
  end.

Inductive Accessor : Type :=
| ContainerId (this : Container.t)
| ContainerExport (this : Container.t) (path : jsstring)
    (opts : option (list (jsstring * Value)))
| ContainerPublish (this : Container.t) (address : jsstring)
    (opts : option (list (jsstring * Value)))
| EnvVariableName (this : EnvVariable.t)
| EnvVariableValue (this : EnvVariable.t)
| FileSize (this : File.t)
| PortPort (this : Port.t).

Definition call (a : Accessor) : M Value :=
  match a with
  | ContainerId this => Container_id this
  | ContainerExport this path opts => Container_export this path opts
  | ContainerPublish this address opts => Container_publish this address opts
  | EnvVariableName this => EnvVariable_name this
  | EnvVariableValue this => EnvVariable_value this
  | FileSize this => File_size this
  | PortPort this => Port_port this
  end.

(** The field an accessor tests, its receiver and the node it selects. *)
Definition cache_of (a : Accessor) : Value :=
  match a with
  | ContainerId this => Container._id this
  | ContainerExport this _ _ => Container._export this
  | ContainerPublish this _ _ => Container._publish this
  | EnvVariableName this => EnvVariable._name this
  | EnvVariableValue this => EnvVariable._value this
  | FileSize this => File._size this
  | PortPort this => Port._port this
  end.

Definition receiver (a : Accessor) : BaseClient :=
  match a with
  | ContainerId this => Container.base this
  | ContainerExport this _ _ => Container.base this
  | ContainerPublish this _ _ => Container.base this
  | EnvVariableName this => EnvVariable.base this
  | EnvVariableValue this => EnvVariable.base this
  | FileSize this => File.base this
  | PortPort this => Port.base this
  end.

Definition selection (a : Accessor) : QueryTree :=
  match a with
  | ContainerId _ => leaf "id"
  | ContainerExport _ path opts => export_node path opts
  | ContainerPublish _ address opts => publish_node address opts
  | EnvVariableName _ => leaf "name"
  | EnvVariableValue _ => leaf "value"
  | FileSize _ => leaf "size"
  | PortPort _ => leaf "port"
  end.

(** The same call on a receiver whose tested field is [v]. *)
Definition with_cache (v : Value) (a : Accessor) : Accessor :=
  match a with
  | ContainerId this =>
      ContainerId
        {| Container.base := Container.base this; Container._id := v;
           Container._endpoint := Container._endpoint this;
           Container._envVariable := Container._envVariable this;
           Container._export := Container._export this;
           Container._hostname := Container._hostname this;
           Container._imageRef := Container._imageRef this;
           Container._label := Container._label this;
           Container._platform := Container._platform this;
           Container._publish := Container._publish this;
           Container._shellEndpoint := Container._shellEndpoint this;
           Container._stderr := Container._stderr this;
           Container._stdout := Container._stdout this;
           Container._sync := Container._sync this;
           Container._user := Container._user this;
           Container._workdir := Container._workdir this |}
  | ContainerExport this path opts =>
      ContainerExport
        {| Container.base := Container.base this;
           Container._id := Container._id this;
           Container._endpoint := Container._endpoint this;
           Container._envVariable := Container._envVariable this;
           Container._export := v;
           Container._hostname := Container._hostname this;
           Container._imageRef := Container._imageRef this;
           Container._label := Container._label this;
           Container._platform := Container._platform this;
           Container._publish := Container._publish this;
           Container._shellEndpoint := Container._shellEndpoint this;
           Container._stderr := Container._stderr this;
           Container._stdout := Container._stdout this;
           Container._sync := Container._sync this;
           Container._user := Container._user this;
           Container._workdir := Container._workdir this |} path opts
  | ContainerPublish this address opts =>
      ContainerPublish
        {| Container.base := Container.base this;
           Container._id := Container._id this;
           Container._endpoint := Container._endpoint this;
           Container._envVariable := Container._envVariable this;
           Container._export := Container._export this;
           Container._hostname := Container._hostname this;
           Container._imageRef := Container._imageRef this;
           Container._label := Container._label this;
           Container._platform := Container._platform this;
           Container._publish := v;
           Container._shellEndpoint := Container._shellEndpoint this;
           Container._stderr := Container._stderr this;
           Container._stdout := Container._stdout this;
           Container._sync := Container._sync this;
           Container._user := Container._user this;
           Container._workdir := Container._workdir this |} address opts
  | EnvVariableName this =>
      EnvVariableName
        {| EnvVariable.base := EnvVariable.base this;
           EnvVariable._name := v;
           EnvVariable._value := EnvVariable._value this |}
  | EnvVariableValue this =>
      EnvVariableValue
        {| EnvVariable.base := EnvVariable.base this;
           EnvVariable._name := EnvVariable._name this;
           EnvVariable._value := v |}
  | FileSize this =>
      FileSize
        {| File.base := File.base this; File._id := File._id this;
           File._contents := File._contents this;
           File._export := File._export this; File._size := v;
           File._sync := File._sync this |}
  | PortPort this =>
      PortPort
        {| Port.base := Port.base this;
           Port._description := Port._description this;
           Port._port := v; Port._protocol := Port._protocol this |}
  end.

(** ** The language of a regular expression *)

Inductive matches : regex -> jsstring -> Prop :=
| MEps : matches REps []
| MChar c : matches (RChar c) [c]
| MRange lo hi c : lo <= c -> c <= hi -> matches (RRange lo hi) [c]
| MSeq r1 r2 s1 s2 :
    matches r1 s1 -> matches r2 s2 -> matches (RSeq r1 r2) (s1 ++ s2)
| MAltL r1 r2 s : matches r1 s -> matches (RAlt r1 r2) s
| MAltR r1 r2 s : matches r2 s -> matches (RAlt r1 r2) s
| MStarNil r : matches (RStar r) []
| MStarCons r s1 s2 :
    matches r s1 -> matches (RStar r) s2 -> matches (RStar r) (s1 ++ s2).

(** Anchored matching: all of [s] is in the language of [r]. *)
Fixpoint full_match (r : regex) (s : jsstring) : bool :=
  match s with
  | [] => nullable r
  | c :: s' => full_match (deriv c r) s'
  end.

Definition is_digit (c : N) : Prop := 48 <= c <= 57.

(** One to three decimal digits. *)
Definition octet (s : jsstring) : Prop :=
  (1 <= length s <= 3)%nat /\ Forall is_digit s.

Definition dot : N := 46.

(** Four groups of one to three digits separated by dots. *)
Definition dotted_quad (s : jsstring) : Prop :=
  exists a b c d,
    s = a ++ dot :: b ++ dot :: c ++ dot :: d
    /\ octet a /\ octet b /\ octet c /\ octet d.

Definition contains_dotted_quad (s : jsstring) : Prop :=
  exists pre q post, s = pre ++ q ++ post /\ dotted_quad q.

(** The host names [localhost] or is a dotted quad, with or without a
    port after it. *)
Definition localhost_or_ipv4 (h : jsstring) : Prop :=
  split_head colon h = js "localhost" \/ dotted_quad (split_head colon h).

(** ** Well-formed receivers *)

(** The tree of [b] is an array of the heap. *)
Definition allocated (w : World) (b : BaseClient) : Prop :=
  is_Some (heap w !! _queryTree b).

(** What every constructor establishes: a host that is not empty and a
    session token [btoa] accepts. *)
Definition constructed (b : BaseClient) : Prop :=
  clientHost b <> [] /\ latin1 (sessionToken b) = true.

Definition header (name : jsstring) (c : GraphQLClient) : option jsstring :=
  snd <$> (snd <$> list_find (fun kv => kv.1 = name) (headers c)).

(** The request of a receiver whose tree holds [t], for the nodes [ns]. *)
Definition request_for (b : BaseClient) (t ns : list QueryTree) : Request :=
  {| req_tree := t ++ ns; req_client := client b |}.

(** The world after one more array. *)
Definition with_array (w : World) (t : list QueryTree) : World :=
  {| heap := <[fresh (dom (heap w)) := t]> (heap w); env := env w;
     remote := remote w; sent := sent w |}.

(** The world after one more request. *)
Definition with_sent (w : World) (rq : Request) : World :=
  {| heap := heap w; env := env w; remote := remote w;
     sent := sent w ++ [rq] |}.

(** The transport the constructor builds in world [w] for a host and
    the base64 text of the credential. *)
Definition client_of (w : World) (clientHost auth : jsstring) : GraphQLClient :=
  {| url := url_of (scheme_of clientHost) clientHost (env w FLUENTCI_SESSION_ID);
     headers :=
       [(js "Authorization", js "Basic " ++ auth);
        (js "X-FluentCI-Session-ID", or_else (env w FLUENTCI_SESSION_ID) [])] |}.

(** The object a deferred call on [b] returns, seen as a [BaseClient]. *)
Definition derived (w : World) (b : BaseClient) : BaseClient :=
  {| _queryTree := fresh (dom (heap w));
     client := client_of w (clientHost b) (b64_encode (sessionToken b ++ js ":"));
     clientHost := clientHost b;
     sessionToken := sessionToken b |}.

(** A configuration that only names a tree. *)
Definition tree_config (qt : loc) : option ClientConfig :=
  Some {| queryTree := Some qt; host := None; cfg_sessionToken := None |}.

(** Reading of the fail-fast rule: a constructor given a tree that holds
    a node with an empty operation name throws. *)
Definition empty_operation_rejected : Prop :=
  forall w qt t n,
    heap w !! qt = Some t -> n ∈ t -> operation n = [] ->
    exists e w', BaseClient_new (tree_config qt) w = (Throw e, w').

(** The base of an object lifted from a response of [b]: it is built
    over the very array of [b]. *)
Definition lifted (w : World) (b : BaseClient) : BaseClient :=
  {| _queryTree := _queryTree b;
     client := client_of w (clientHost b) (b64_encode (sessionToken b ++ js ":"));
     clientHost := clientHost b;
     sessionToken := sessionToken b |}.

Definition lift_variable (b : BaseClient) (r : Value) : EnvVariable.t :=
  {| EnvVariable.base := b;
     EnvVariable._name := field r (js "name");
     EnvVariable._value := field r (js "value") |}.

Definition lift_port (b : BaseClient) (r : Value) : Port.t :=
  {| Port.base := b;
     Port._description := field r (js "description");
     Port._port := field r (js "port");
     Port._protocol := field r (js "protocol") |}.

(** A response item whose properties can be read. *)
Definition readable (r : Value) : Prop := r <> VUndefined /\ r <> VNull.

Definition variables_selection : list QueryTree :=
  [leaf "envVariables"; leaf "name value"].

Definition ports_selection : list QueryTree :=
  [leaf "exposedPorts"; leaf "description port protocol"].

(** Reading of C3: the tree of a lifted object is the parent's tree
    followed by the array field and the sub-selection. *)
Definition lifted_tree_extends_parent : Prop :=
  forall (this : Container.t) w t es w' e,
    heap w !! _queryTree (Container.base this) = Some t ->
    Container_envVariables this w = (Ok es, w') ->
    e ∈ es ->
    heap w' !! _queryTree (EnvVariable.base e)
    = Some (t ++ variables_selection).

(** Reading of C2: two invocations of [export] send two requests,
    whatever the container. *)
Definition export_always_sends : Prop :=
  forall (this : Container.t) path opts w t r1 w1 r2 w2,
    heap w !! _queryTree (Container.base this) = Some t ->
    Container_export this path opts w = (r1, w1) ->
    Container_export this path opts w1 = (r2, w2) ->
    length (sent w2) = (length (sent w) + 2)%nat.

(** Reading of C7: a field given to the constructor is what the accessor
    returns, without a request. *)
Definition prepopulated_field_is_returned : Prop :=
  forall a w,
    cache_of a <> VUndefined -> call a w = (Ok (cache_of a), w).

(** Reading of C5: the URL is an [http://] one exactly for [localhost]
    and dotted quads. *)
Definition http_only_for_localhost_or_ipv4 : Prop :=
  forall parent w b w',
    BaseClient_new parent w = (Ok b, w') ->
    (startsWith (url (client b)) (js "http://") = true
     <-> localhost_or_ipv4 (clientHost b)).

Definition session_header : jsstring := js "X-FluentCI-Session-ID".

(** Reading of the last part of C6: the correlation header is there only
    when the environment variable is set. *)
Definition session_header_only_when_set : Prop :=
  forall parent w b w',
    BaseClient_new parent w = (Ok b, w') ->
    is_Some (header session_header (client b)) ->
    is_Some (env w FLUENTCI_SESSION_ID).

(** ** Sample inputs *)

Definition sample_client : GraphQLClient :=
  {| url := js "http://127.0.0.1:8080/query";
     headers := [(js "Authorization", js "Basic dG9rOg==");
                 (js "X-FluentCI-Session-ID", [])] |}.

Definition sample_base : BaseClient :=
  {| _queryTree := 0%nat; client := sample_client;
     clientHost := js "127.0.0.1:8080"; sessionToken := js "tok" |}.

Definition sample_env_entry : Value :=
  VRec [(js "name", VStr (js "EMPTY")); (js "value", VStr [])].

Definition sample_world : World :=
  {| heap := {[ 0%nat := [leaf "container"] ]};
     env := fun _ => None;
     remote := fun _ _ => Ok (VArr [sample_env_entry]);
     sent := [] |}.

Definition remote_base : BaseClient :=
  {| _queryTree := 0%nat;
     client := {| url := js "https://ci.example.com/query";
                  headers := [(js "Authorization", js "Basic c2VjcmV0Og==");
                              (js "X-FluentCI-Session-ID", [])] |};
     clientHost := js "ci.example.com"; sessionToken := js "secret" |}.

(** A container on [b] whose only cached field is [_export]. *)
Definition container_on (b : BaseClient) (export : Value) : Container.t :=
  {| Container.base := b;
     Container._id := VUndefined; Container._endpoint := VUndefined;
     Container._envVariable := VUndefined; Container._export := export;
     Container._hostname := VUndefined; Container._imageRef := VUndefined;
     Container._label := VUndefined; Container._platform := VUndefined;
     Container._publish := VUndefined;
     Container._shellEndpoint := VUndefined;
     Container._stderr := VUndefined; Container._stdout := VUndefined;
     Container._sync := VUndefined; Container._user := VUndefined;
     Container._workdir := VUndefined |}.

Definition sample_container (export : Value) : Container.t :=
  container_on sample_base export.

Definition sample_file (size : Value) : File.t :=
  {| File.base := sample_base; File._id := VUndefined;
     File._contents := VUndefined; File._export := VUndefined;
     File._size := size; File._sync := VUndefined |}.

Definition localhost_lookalike : option ClientConfig :=
  Some {| queryTree := None; host := Some (js "localhost.example.com");
          cfg_sessionToken := Some (js "tok") |}.

Definition sample_variable (value : Value) : EnvVariable.t :=
  {| EnvVariable.base := sample_base;
     EnvVariable._name := VStr (js "EMPTY");
     EnvVariable._value := value |}.


(** What [new BaseClient()] builds in [sample_world]. *)
Definition default_object : BaseClient :=
  {| _queryTree := 1%nat;
     client := {| url := js "http://127.0.0.1:8080/query";
                  headers := [(js "Authorization", js "Basic dW5kZWZpbmVkOg==");
                              (js "X-FluentCI-Session-ID", [])] |};
     clientHost := js "127.0.0.1:8080"; sessionToken := [] |}.

(** A session token with the euro sign, which [btoa] rejects. *)
Definition wide_token_config : option ClientConfig :=
  Some {| queryTree := Some 0%nat; host := None;
          cfg_sessionToken := Some [8364] |}.

Definition sample_config : option ClientConfig :=
  Some {| queryTree := Some 0%nat; host := Some (js "localhost:8080");
          cfg_sessionToken := Some (js "tok") |}.

(** [sample_world] with [FLUENTCI_SESSION_ID=42]. *)
Definition session_world : World :=
  {| heap := heap sample_world;
     env := fun name =>
              if decide (name = FLUENTCI_SESSION_ID) then Some (js "42")
              else None;
     remote := remote sample_world;
     sent := [] |}.

Definition session_object : BaseClient :=
  {| _queryTree := 0%nat;
     client := {| url := js "http://localhost:8080/query?id=42";
                  headers := [(js "Authorization", js "Basic dG9rOg==");
                              (js "X-FluentCI-Session-ID", js "42")] |};
     clientHost := js "localhost:8080"; sessionToken := js "tok" |}.

Definition plain_object : BaseClient :=
  {| _queryTree := 0%nat;
     client := {| url := js "http://localhost:8080/query";
                  headers := [(js "Authorization", js "Basic dG9rOg==");
                              (js "X-FluentCI-Session-ID", [])] |};
     clientHost := js "localhost:8080"; sessionToken := js "tok" |}.

(** A heap whose only tree is a single node with an empty operation name. *)
Definition nameless_node : QueryTree := {| operation := []; args := None |}.

Definition nameless_world : World :=
  {| heap := {[ 0%nat := [nameless_node] ]};
     env := fun _ => None;
     remote := fun _ _ => Ok VNull;
     sent := [] |}.

(** * Further classes and methods *)

Module Client.
Record t : Type := {
  base : BaseClient;
  _checkVersionCompatibility : Value;
  _defaultPlatform : Value
}.
End Client.

Module Secret.
Record t : Type := {
  base : BaseClient;
  _id : Value;
  _plaintext : Value
}.
End Secret.

Definition Client_new (parent : option ClientConfig)
  (_checkVersionCompatibility _defaultPlatform : Value) : M Client.t :=
  b <- BaseClient_new parent ;;
  ret {| Client.base := b;
         Client._checkVersionCompatibility := _checkVersionCompatibility;
         Client._defaultPlatform := _defaultPlatform |}.

(** [new Client(parent)]. *)
Definition Client_of (parent : option ClientConfig) : M Client.t :=
  Client_new parent VUndefined VUndefined.

(** ** Methods of [Client] *)

Definition container_node (opts : option (list (jsstring * Value)))
  : QueryTree :=
  {| operation := js "container"; args := Some (spread_props opts []) |}.

Definition Client_container (this : Client.t)
  (opts : option (list (jsstring * Value))) : M Container.t :=
  qt <- spread_literal (_queryTree (Client.base this)) [container_node opts] ;;
  Container_of (child_config qt (Client.base this)).

Definition checkVersionCompatibility_node (version : jsstring) : QueryTree :=
  {| operation := js "checkVersionCompatibility";
     args := Some [(js "version", VStr version)] |}.

Definition Client_checkVersionCompatibility (this : Client.t)
  (version : jsstring) : M Value :=
  qt <- spread_literal (_queryTree (Client.base this))
          [checkVersionCompatibility_node version] ;;
  computeQuery qt (client (Client.base this)).

Definition Client_defaultPlatform (this : Client.t) : M Value :=
  qt <- spread_literal (_queryTree (Client.base this))
          [leaf "defaultPlatform"] ;;
  computeQuery qt (client (Client.base this)).

(** ** More methods of [Container] *)

Definition envVariable_node (name : jsstring) : QueryTree :=
  {| operation := js "envVariable"; args := Some [(js "name", VStr name)] |}.

Definition Container_envVariable (this : Container.t) (name : jsstring)
  : M Value :=
  if truthy (Container._envVariable this)
  then ret (Container._envVariable this)
  else
    qt <- spread_literal (_queryTree (Container.base this))
            [envVariable_node name] ;;
    computeQuery qt (client (Container.base this)).

Definition label_node (name : jsstring) : QueryTree :=
  {| operation := js "label"; args := Some [(js "name", VStr name)] |}.

Definition Container_label (this : Container.t) (name : jsstring) : M Value :=
  if truthy (Container._label this) then ret (Container._label this)
  else
    qt <- spread_literal (_queryTree (Container.base this))
            [label_node name] ;;
    computeQuery qt (client (Container.base this)).

Definition pipeline_node (name : jsstring)
  (opts : option (list (jsstring * Value))) : QueryTree :=
  {| operation := js "pipeline";
     args := Some (spread_props opts [(js "name", VStr name)]) |}.

Definition Container_pipeline (this : Container.t) (name : jsstring)
  (opts : option (list (jsstring * Value))) : M Container.t :=
  qt <- spread_literal (_queryTree (Container.base this))
          [pipeline_node name opts] ;;
  Container_of (child_config qt (Container.base this)).

Definition Container_stdout (this : Container.t) : M Value :=
  if truthy (Container._stdout this) then ret (Container._stdout this)
  else
    qt <- spread_literal (_queryTree (Container.base this)) [leaf "stdout"] ;;
    computeQuery qt (client (Container.base this)).

(** [sync]: the answer is awaited and dropped, the receiver is returned. *)
Definition Container_sync (this : Container.t) : M Container.t :=
  qt <- spread_literal (_queryTree (Container.base this)) [leaf "sync"] ;;
  _ <- computeQuery qt (client (Container.base this)) ;;
  ret this.

Definition withEnvVariable_node (name value : jsstring)
  (opts : option (list (jsstring * Value))) : QueryTree :=
  {| operation := js "withEnvVariable";
     args := Some (spread_props opts
                     [(js "name", VStr name); (js "value", VStr value)]) |}.

Definition Container_withEnvVariable (this : Container.t)
  (name value : jsstring) (opts : option (list (jsstring * Value)))
  : M Container.t :=
  qt <- spread_literal (_queryTree (Container.base this))
          [withEnvVariable_node name value opts] ;;
  Container_of (child_config qt (Container.base this)).

(** The constant [metadata] of [withExposedPort]. *)
Definition protocol_metadata : Value :=
  VRec [(js "protocol", VRec [(js "is_enum", VBool true)])].

Definition withExposedPort_node (port : Z)
  (opts : option (list (jsstring * Value))) : QueryTree :=
  {| operation := js "withExposedPort";
     args := Some (set_prop (js "__metadata") protocol_metadata
                     (spread_props opts [(js "port", VNum port)])) |}.

Definition Container_withExposedPort (this : Container.t) (port : Z)
  (opts : option (list (jsstring * Value))) : M Container.t :=
  qt <- spread_literal (_queryTree (Container.base this))
          [withExposedPort_node port opts] ;;
  Container_of (child_config qt (Container.base this)).

Definition withMountedSecret_node (path : jsstring) (source : Secret.t)
  (opts : option (list (jsstring * Value))) : QueryTree :=
  {| operation := js "withMountedSecret";
     args := Some (spread_props opts
                     [(js "path", VStr path);
                      (js "source", VObj CSecret (Secret.base source))]) |}.

Definition Container_withMountedSecret (this : Container.t) (path : jsstring)
  (source : Secret.t) (opts : option (list (jsstring * Value)))
  : M Container.t :=
  qt <- spread_literal (_queryTree (Container.base this))
          [withMountedSecret_node path source opts] ;;
  Container_of (child_config qt (Container.base this)).

Definition withSecretVariable_node (name : jsstring) (secret : Secret.t)
  : QueryTree :=
  {| operation := js "withSecretVariable";
     args := Some [(js "name", VStr name);
                   (js "secret", VObj CSecret (Secret.base secret))] |}.

Definition Container_withSecretVariable (this : Container.t) (name : jsstring)
  (secret : Secret.t) : M Container.t :=
  qt <- spread_literal (_queryTree (Container.base this))
          [withSecretVariable_node name secret] ;;
  Container_of (child_config qt (Container.base this)).

(** ** Methods of [Directory] and [File] *)

Definition Directory_file (this : Directory.t) (path : jsstring) : M File.t :=
  qt <- spread_literal (_queryTree (Directory.base this)) [file_node path] ;;
  File_of (child_config qt (Directory.base this)).

Definition Directory_sync (this : Directory.t) : M Directory.t :=
  qt <- spread_literal (_queryTree (Directory.base this)) [leaf "sync"] ;;
  _ <- computeQuery qt (client (Directory.base this)) ;;
  ret this.

Definition File_contents (this : File.t) : M Value :=
  if truthy (File._contents this) then ret (File._contents this)
  else
    qt <- spread_literal (_queryTree (File.base this)) [leaf "contents"] ;;
    computeQuery qt (client (File.base this)).

Definition File_sync (this : File.t) : M File.t :=
  qt <- spread_literal (_queryTree (File.base this)) [leaf "sync"] ;;
  _ <- computeQuery qt (client (File.base this)) ;;
  ret this.

(** ** Call chains

    The deferred calls of [Container] that return a [Container], as data,
    and a chain [c.m1(..).m2(..)...] as the list of its calls. *)

Inductive Step : Type :=
| SBuild (context : Directory.t) (opts : option (list (jsstring * Value)))
| SFrom (address : jsstring)
| SPipeline (name : jsstring) (opts : option (list (jsstring * Value)))
| SWithEnvVariable (name value : jsstring)
    (opts : option (list (jsstring * Value)))
| SWithExec (args : list jsstring) (opts : option (list (jsstring * Value)))
| SWithExposedPort (port : Z) (opts : option (list (jsstring * Value)))
| SWithMountedSecret (path : jsstring) (source : Secret.t)
    (opts : option (list (jsstring * Value)))
| SWithSecretVariable (name : jsstring) (secret : Secret.t)
| SWithWorkdir (path : jsstring).

Definition apply_step (this : Container.t) (s : Step) : M Container.t :=
  match s with
  | SBuild context opts => Container_build this context opts
  | SFrom address => Container_from this address
  | SPipeline name opts => Container_pipeline this name opts
  | SWithEnvVariable name value opts =>
      Container_withEnvVariable this name value opts
  | SWithExec args opts => Container_withExec this args opts
  | SWithExposedPort port opts => Container_withExposedPort this port opts
  | SWithMountedSecret path source opts =>
      Container_withMountedSecret this path source opts
  | SWithSecretVariable name secret =>
      Container_withSecretVariable this name secret
  | SWithWorkdir path => Container_withWorkdir this path
  end.

Definition step_node (s : Step) : QueryTree :=
  match s with
  | SBuild context opts => build_node context opts
  | SFrom address => from_node address
  | SPipeline name opts => pipeline_node name opts
  | SWithEnvVariable name value opts => withEnvVariable_node name value opts
  | SWithExec args opts => withExec_node args opts
  | SWithExposedPort port opts => withExposedPort_node port opts
  | SWithMountedSecret path source opts =>
      withMountedSecret_node path source opts
  | SWithSecretVariable name secret => withSecretVariable_node name secret
  | SWithWorkdir path => withWorkdir_node path
  end.

Fixpoint run_steps (this : Container.t) (steps : list Step) : M Container.t :=
  match steps with
  | [] => ret this
  | s :: steps' => next <- apply_step this s ;; run_steps next steps'
  end.

(** The keys of an object. *)
Definition keys (o : list (jsstring * Value)) : list jsstring := fst <$> o.

Definition metadata_key : jsstring := js "__metadata".

(** The arguments of a node, an empty object when it has none. *)
Definition args_of (n : QueryTree) : list (jsstring * Value) :=
  default [] (args n).

(** The options object a step was called with. *)
Definition step_opts (s : Step) : option (list (jsstring * Value)) :=
  match s with
  | SBuild _ opts => opts
  | SFrom _ => None
  | SPipeline _ opts => opts
  | SWithEnvVariable _ _ opts => opts
  | SWithExec _ opts => opts
  | SWithExposedPort _ opts => opts
  | SWithMountedSecret _ _ opts => opts
  | SWithSecretVariable _ _ => None
  | SWithWorkdir _ => None
  end.

(** The entries a step writes before it spreads its options. *)
Definition positional (s : Step) : list (jsstring * Value) :=
  match s with
  | SBuild context _ =>
      [(js "context", VObj CDirectory (Directory.base context))]
  | SFrom address => [(js "address", VStr address)]
  | SPipeline name _ => [(js "name", VStr name)]
  | SWithEnvVariable name value _ =>
      [(js "name", VStr name); (js "value", VStr value)]
  | SWithExec args _ => [(js "args", VArr (VStr <$> args))]
  | SWithExposedPort port _ => [(js "port", VNum port)]
  | SWithMountedSecret path source _ =>
      [(js "path", VStr path);
       (js "source", VObj CSecret (Secret.base source))]
  | SWithSecretVariable name secret =>
      [(js "name", VStr name);
       (js "secret", VObj CSecret (Secret.base secret))]
  | SWithWorkdir path => [(js "path", VStr path)]
  end.

(** [new Client(parent).container(opts)], a chain of calls on it, and
    [stdout()] at the end. *)
Definition pipeline_stdout (parent : option ClientConfig)
  (opts : option (list (jsstring * Value))) (steps : list Step) : M Value :=
  root <- Client_of parent ;;
  c <- Client_container root opts ;;
  c' <- run_steps c steps ;;
  Container_stdout c'.

(** [c.directory(p).file(q).contents()]. *)
Definition read_file (this : Container.t) (p q : jsstring) : M Value :=
  d <- Container_directory this p ;;
  f <- Directory_file d q ;;
  File_contents f.

(** A container none of whose fields was given to the constructor. *)
Definition uncached (c : Container.t) : Prop :=
  c = container_on (Container.base c) VUndefined.

(** ** Further sample inputs *)

Definition sample_directory : Directory.t :=
  {| Directory.base := sample_base; Directory._id := VUndefined;
     Directory._export := VUndefined;
     Directory._sync := VStr (js "directory-id") |}.

(** A root client built with both of its fields. *)
Definition sample_root : Client.t :=
  {| Client.base := sample_base;
     Client._checkVersionCompatibility := VBool true;
     Client._defaultPlatform := VStr (js "linux/amd64") |}.

(** A container built with [_envVariable] and [_label]. *)
Definition labelled_container : Container.t :=
  {| Container.base := sample_base;
     Container._id := VUndefined; Container._endpoint := VUndefined;
     Container._envVariable := VStr (js "/usr/bin");
     Container._export := VUndefined;
     Container._hostname := VUndefined; Container._imageRef := VUndefined;
     Container._label := VStr (js "v1"); Container._platform := VUndefined;
     Container._publish := VUndefined;
     Container._shellEndpoint := VUndefined;
     Container._stderr := VUndefined; Container._stdout := VUndefined;
     Container._sync := VUndefined; Container._user := VUndefined;
     Container._workdir := VUndefined |}.

(** [sample_world] with an engine that always answers [r]. *)
Definition answering (r : Result Value) : World :=
  {| heap := heap sample_world; env := env sample_world;
     remote := fun _ _ => r; sent := [] |}.

(** What a second [new BaseClient()] builds after [default_object]. *)
Definition second_object : BaseClient :=
  {| _queryTree := 2%nat; client := client default_object;
     clientHost := clientHost default_object; sessionToken := [] |}.

Definition sample_steps : list Step :=
  [SFrom (js "alpine");
   SWithExec [js "ls"] (Some [(js "skipEntrypoint", VBool true)]);
   SWithWorkdir (js "/app")].

(** ** Reading base64 back

    The inverse of [b64_encode], to state that the credential can be read
    back from the header. *)

Definition b64_value (c : N) : N :=
  match list_find (fun d => d = c) b64_alphabet with
  | Some (i, _) => N.of_nat i
  | None => 0
  end.

Definition pad : N := 61.

Fixpoint b64_decode (cs : jsstring) : list N :=
  match cs with
  | a :: b :: c :: d :: rest =>
      let byte1 := N.lor (N.shiftl (b64_value a) 2) (N.shiftr (b64_value b) 4) in
      if c =? pad then [byte1]
      else
        let byte2 := N.lor (N.shiftl (N.land (b64_value b) 15) 4)
                       (N.shiftr (b64_value c) 2) in
        if d =? pad then [byte1; byte2]
        else
          byte1 :: byte2
          :: N.lor (N.shiftl (N.land (b64_value c) 3) 6) (b64_value d)
          :: b64_decode rest
  | _ => []
  end.

(** The numbers below [n]. *)
Definition below (n : nat) : list N := N.of_nat <$> seq 0 n.

(** The checks behind the round trip: the alphabet is read back, a byte
    is the join of its parts, and two parts joined can be taken apart. *)

Definition digit_ok (n : N) : bool :=
  (b64_value (b64_digit n) =? n) && negb (b64_digit n =? pad).

Definition byte_ok (a : N) : bool :=
  (N.shiftr a 2 <? 64) && (N.land a 3 <? 4)
  && (N.shiftr a 4 <? 16) && (N.land a 15 <? 16)
  && (N.shiftr a 6 <? 4) && (N.land a 63 <? 64)
  && (N.lor (N.shiftl (N.shiftr a 2) 2) (N.land a 3) =? a)
  && (N.lor (N.shiftl (N.shiftr a 4) 4) (N.land a 15) =? a)
  && (N.lor (N.shiftl (N.shiftr a 6) 6) (N.land a 63) =? a).

Definition join_ok (k : N) (x y : N) : bool :=
  let v := N.lor (N.shiftl x k) y in
  (v <? 64) && (N.shiftr v k =? x) && (N.land v (2 ^ k - 1) =? y).

(** ** Chainable Objects inside arguments *)

(** Does a value hold a Chainable Object, at any depth? Such an object
    has a host, a session token and a transport of its own. *)
Fixpoint carries_object (v : Value) : bool :=
  match v with
  | VObj _ _ => true
  | VArr items => existsb carries_object items
  | VRec fields => existsb (fun kv => carries_object kv.2) fields
  | _ => false
  end.

(** An object none of whose values holds a Chainable Object. *)
Definition object_free (o : list (jsstring * Value)) : Prop :=
  Forall (fun kv => carries_object kv.2 = false) o.

Definition node_object_free (n : QueryTree) : Prop := object_free (args_of n).

(** The options object a deferred call was given. *)
Definition deferred_opts (d : Deferred) : option (list (jsstring * Value)) :=
  match d with
  | Build _ opts => opts
  | WithExec _ opts => opts
  | _ => None
  end.

(** The deferred calls and steps one of whose parameters is a Chainable
    Object. *)
Definition takes_object (d : Deferred) : bool :=
  match d with
  | Build _ _ => true
  | _ => false
  end.

Definition step_takes_object (s : Step) : bool :=
  match s with
  | SBuild _ _ | SWithMountedSecret _ _ _ | SWithSecretVariable _ _ => true
  | _ => false
  end.

(** Reading of the second half of C9: a deferred call on a tree whose
    nodes hold no connection context gives a tree whose nodes hold none. *)
Definition no_node_holds_context : Prop :=
  forall (this : Container.t) d w t o w' t',
    heap w !! _queryTree (Container.base this) = Some t ->
    Forall node_object_free t ->
    invoke this d w = (Ok o, w') ->
    heap w' !! _queryTree (obj_base o) = Some t' ->
    Forall node_object_free t'.

(** Reading of C7 for the fields of [Client]. *)
Definition client_field_is_returned : Prop :=
  forall (this : Client.t) w,
    Client._defaultPlatform this <> VUndefined ->
    Client_defaultPlatform this w = (Ok (Client._defaultPlatform this), w).

(** * Properties *)

(** ** Derivatives compute the language *)

Lemma matches_nil_nullable r s : matches r s -> s = [] -> nullable r = true.
Proof.
  induction 1 as [| | |r1 r2 s1 s2 _ IH1 _ IH2| | | |]; intros E;
    simpl; try discriminate; auto.
  - apply app_eq_nil in E as [-> ->]. rewrite IH1, IH2; auto.
  - rewrite IHmatches; auto.
  - rewrite IHmatches; auto. apply orb_true_r.
Qed.

Lemma nullable_matches r : nullable r = true -> matches r [].
Proof.
  induction r; simpl; intros E; try discriminate.
  - constructor.
  - apply andb_true_iff in E as [E1 E2].
    change (@nil N) with (@nil N ++ []). constructor; auto.
  - apply orb_true_iff in E as [E | E]; [apply MAltL | apply MAltR]; auto.
  - constructor.
Qed.

Lemma deriv_sound c r : forall s, matches (deriv c r) s -> matches r (c :: s).
Proof.
  induction r; simpl; intros s H.
  - inversion H.
  - inversion H.
  - destruct (N.eqb_spec c c0) as [->|]; inversion H; subst. constructor.
  - destruct (lo <=? c) eqn:E1; destruct (c <=? hi) eqn:E2; simpl in H;
      inversion H; subst.
    constructor; [apply N.leb_le, E1 | apply N.leb_le, E2].
  - destruct (nullable r1) eqn:E.
    + inversion H as [| | | | ? ? ? H1 | ? ? ? H1 | |]; subst.
      * inversion H1; subst.
        change (c :: s1 ++ s2) with ((c :: s1) ++ s2). constructor; auto.
      * change (c :: s) with ([] ++ c :: s).
        constructor; auto using nullable_matches.
    + inversion H; subst.
      change (c :: s1 ++ s2) with ((c :: s1) ++ s2). constructor; auto.
  - inversion H; subst; [apply MAltL | apply MAltR]; auto.
  - inversion H; subst.
    change (c :: s1 ++ s2) with ((c :: s1) ++ s2). constructor; auto.
Qed.

Lemma deriv_complete c r s' :
  matches r s' -> forall s, s' = c :: s -> matches (deriv c r) s.
Proof.
  induction 1 as [| d | lo hi d Hlo Hhi
                  | r1 r2 s1 s2 H1 IH1 H2 IH2
                  | r1 r2 s0 H0 IH0 | r1 r2 s0 H0 IH0
                  | | r1 s1 s2 H1 IH1 H2 IH2];
    intros s E; simpl.
  - discriminate.
  - injection E as -> <-. rewrite N.eqb_refl. constructor.
  - injection E as -> <-.
    apply N.leb_le in Hlo, Hhi. rewrite Hlo, Hhi. constructor.
  - destruct s1 as [|x s1]; simpl in E.
    + rewrite (matches_nil_nullable _ _ H1 eq_refl).
      apply MAltR. auto.
    + injection E as -> <-.
      destruct (nullable r1); [apply MAltL |]; constructor; auto.
  - apply MAltL; auto.
  - apply MAltR; auto.
  - discriminate.
  - destruct s1 as [|x s1]; simpl in E.
    + simpl in IH2. auto.
    + injection E as -> <-. constructor; auto.
Qed.

Lemma full_match_spec r s : full_match r s = true <-> matches r s.
Proof.
  revert r. induction s as [|c s IH]; intros r; simpl.
  - split; [apply nullable_matches | intros H; eapply matches_nil_nullable; eauto].
  - rewrite IH. split; [apply deriv_sound |].
    intros H. eapply deriv_complete; eauto.
Qed.

Lemma prefix_match_spec r s :
  prefix_match r s = true <-> exists p q, s = p ++ q /\ matches r p.
Proof.
  revert r. induction s as [|c s IH]; intros r; simpl.
  - rewrite orb_false_r. split.
    + intros H. exists [], []. split; auto using nullable_matches.
    + intros (p & q & E & H). symmetry in E.
      apply app_eq_nil in E as [-> ->].
      eapply matches_nil_nullable; eauto.
  - rewrite orb_true_iff, IH. split.
    + intros [H | (p & q & -> & H)].
      * exists [], (c :: s). split; auto using nullable_matches.
      * exists (c :: p), q. split; auto using deriv_sound.
    + intros (p & q & E & H). destruct p as [|x p]; simpl in E.
      * left. eapply matches_nil_nullable; eauto.
      * injection E as <- ->. right. exists p, q. split; auto.
        eapply deriv_complete; eauto.
Qed.

Lemma regex_search_spec r s :
  regex_search r s = true <->
  exists pre p post, s = pre ++ p ++ post /\ matches r p.
Proof.
  induction s as [|c s IH]; cbn [regex_search].
  - rewrite orb_false_r, prefix_match_spec. split.
    + intros (p & q & E & H). exists [], p, q. auto.
    + intros (pre & p & post & E & H). symmetry in E.
      apply app_eq_nil in E as [-> E]. exists p, post. auto.
  - rewrite orb_true_iff, prefix_match_spec, IH. split.
    + intros [(p & q & E & H) | (pre & p & post & -> & H)].
      * exists [], p, q. auto.
      * exists (c :: pre), p, post. auto.
    + intros (pre & p & post & E & H). destruct pre as [|x pre]; simpl in E.
      * left. exists p, post. auto.
      * injection E as <- ->. right. exists pre, p, post. auto.
Qed.

(** ** The pattern of the constructor *)

Lemma matches_digit s : matches digit s <-> exists c, s = [c] /\ is_digit c.
Proof.
  unfold digit, is_digit. split.
  - intros H. inversion H; subst. eauto.
  - intros (c & -> & H1 & H2). constructor; auto.
Qed.

Ltac all_digits :=
  repeat first [apply Forall_nil_2 | apply List.Forall_cons; [assumption |]].

Lemma matches_octet s : matches (rep_1_3 digit) s <-> octet s.
Proof.
  unfold rep_1_3, octet. split.
  - intros H.
    inversion H as [| | |? ? s1 s2 Ha Hb| | | |]; subst.
    apply matches_digit in Ha as (a & -> & Da).
    inversion Hb as [| | | |? ? ? Hc|? ? ? Hc| |]; subst.
    { inversion Hc; subst. simpl. split; [lia | all_digits]. }
    inversion Hc as [| | |? ? s3 s4 Hd He| | | |]; subst.
    apply matches_digit in Hd as (b & -> & Db).
    inversion He as [| | | |? ? ? Hf|? ? ? Hf| |]; subst.
    { inversion Hf; subst. simpl. split; [lia | all_digits]. }
    apply matches_digit in Hf as (c & -> & Dc).
    simpl. split; [lia | all_digits].
  - intros [[L1 L3] D].
    destruct s as [|a [|b [|c [|]]]]; simpl in *; try lia.
    + apply Forall_cons in D as [Da _].
      change [a] with ([a] ++ []). constructor.
      * apply matches_digit; eauto.
      * apply MAltL. constructor.
    + apply Forall_cons in D as [Da D]. apply Forall_cons in D as [Db _].
      change [a; b] with ([a] ++ ([b] ++ [])). constructor.
      * apply matches_digit; eauto.
      * apply MAltR. constructor.
        -- apply matches_digit; eauto.
        -- apply MAltL. constructor.
    + apply Forall_cons in D as [Da D]. apply Forall_cons in D as [Db D].
      apply Forall_cons in D as [Dc _].
      change [a; b; c] with ([a] ++ ([b] ++ [c])). constructor.
      * apply matches_digit; eauto.
      * apply MAltR. constructor.
        -- apply matches_digit; eauto.
        -- apply MAltR. apply matches_digit; eauto.
Qed.

Lemma matches_group s :
  matches (RSeq (rep_1_3 digit) (RChar 46)) s <-> exists a, s = a ++ [dot] /\ octet a.
Proof.
  split.
  - intros H. inversion H as [| | |? ? s1 s2 Ha Hb| | | |]; subst.
    inversion Hb; subst. exists s1. split; auto. apply matches_octet; auto.
  - intros (a & -> & Ha). constructor; [apply matches_octet; auto | constructor].
Qed.

Lemma matches_ipv4 s : matches ipv4_pattern s <-> dotted_quad s.
Proof.
  unfold ipv4_pattern, rep_3, dotted_quad. split.
  - intros H. inversion H as [| | |? ? s1 s2 H3 Hd| | | |]; subst.
    inversion H3 as [| | |? ? sa s4 Ha H2| | | |]; subst.
    inversion H2 as [| | |? ? sb sc Hb Hc| | | |]; subst.
    apply matches_group in Ha as (a & -> & Oa).
    apply matches_group in Hb as (b & -> & Ob).
    apply matches_group in Hc as (c & -> & Oc).
    apply matches_octet in Hd.
    exists a, b, c, s2. split; [| auto].
    rewrite <- !app_assoc. simpl. rewrite <- ?app_assoc. reflexivity.
  - intros (a & b & c & d & -> & Oa & Ob & Oc & Od).
    replace (a ++ dot :: b ++ dot :: c ++ dot :: d)
      with (((a ++ [dot]) ++ ((b ++ [dot]) ++ (c ++ [dot]))) ++ d).
    + constructor; [| apply matches_octet; auto].
      constructor; [apply matches_group; eauto |].
      constructor; apply matches_group; eauto.
    + rewrite <- !app_assoc. simpl. rewrite <- ?app_assoc. reflexivity.
Qed.

Lemma search_ipv4 s :
  regex_search ipv4_pattern s = true <-> contains_dotted_quad s.
Proof.
  rewrite regex_search_spec. unfold contains_dotted_quad.
  split; intros (pre & q & post & E & H); exists pre, q, post;
    (split; [exact E | apply matches_ipv4; exact H]).
Qed.

(** ** The monad and the primitives *)

Lemma bind_ok {A B} (m : M A) (k : A -> M B) w a w' :
  m w = (Ok a, w') -> bind m k w = k a w'.
Proof. intros E. unfold bind. rewrite E. reflexivity. Qed.

Lemma spread_literal_ok a ns w t :
  heap w !! a = Some t ->
  spread_literal a ns w = (Ok (fresh (dom (heap w))), with_array w (t ++ ns)).
Proof.
  intros E. unfold spread_literal, bind, read_array. rewrite E. reflexivity.
Qed.

Lemma fresh_not_allocated (w : World) l t :
  heap w !! l = Some t -> fresh (dom (heap w)) <> l.
Proof.
  intros E F. apply (is_fresh (dom (heap w))).
  rewrite F. apply elem_of_dom. eauto.
Qed.

Lemma with_array_fresh w t :
  heap (with_array w t) !! fresh (dom (heap w)) = Some t.
Proof. simpl. apply lookup_insert_eq. Qed.

Lemma with_array_frame w t l t0 :
  heap w !! l = Some t0 -> heap (with_array w t) !! l = Some t0.
Proof.
  intros E. simpl. rewrite lookup_insert_ne; auto.
  eapply fresh_not_allocated; eauto.
Qed.

Lemma latin1_app s1 s2 : latin1 (s1 ++ s2) = latin1 s1 && latin1 s2.
Proof. apply forallb_app. Qed.

(** ** The constructor *)

Lemma BaseClient_new_eq parent w :
  BaseClient_new parent w =
  let cfg := default empty_config parent in
  let w1 := match queryTree cfg with Some _ => w | None => with_array w [] end in
  let qt := match queryTree cfg with
            | Some l => l
            | None => fresh (dom (heap w))
            end in
  match btoa (to_string (cfg_sessionToken cfg) ++ js ":") with
  | Ok auth =>
      (Ok {| _queryTree := qt;
             client := client_of w (or_else (host cfg) default_host) auth;
             clientHost := or_else (host cfg) default_host;
             sessionToken := or_else (cfg_sessionToken cfg) [] |}, w1)
  | Throw e => (Throw e, w1)
  end.
Proof.
  unfold BaseClient_new, bind, lift, env_get, ret.
  destruct (queryTree (default empty_config parent)); simpl;
    destruct (btoa _); reflexivity.
Qed.

Lemma BaseClient_new_child qt b w :
  constructed b ->
  BaseClient_new (child_config qt b) w =
  (Ok {| _queryTree := qt;
         client := client_of w (clientHost b) (b64_encode (sessionToken b ++ js ":"));
         clientHost := clientHost b;
         sessionToken := sessionToken b |}, w).
Proof.
  intros [Hh Ht]. rewrite BaseClient_new_eq. simpl.
  unfold btoa. rewrite latin1_app, Ht. simpl.
  destruct (clientHost b); [congruence |].
  destruct (sessionToken b); reflexivity.
Qed.

Lemma BaseClient_new_constructed parent w b w' :
  BaseClient_new parent w = (Ok b, w') -> constructed b.
Proof.
  rewrite BaseClient_new_eq. simpl. unfold btoa.
  destruct (latin1 _) eqn:L; [| discriminate].
  intros E. injection E as <- _. split; simpl.
  - destruct (host _) as [[|]|]; discriminate.
  - rewrite latin1_app in L. apply andb_true_iff in L as [L _].
    destruct (cfg_sessionToken _) as [[|]|]; auto.
Qed.

(** ** Deferred calls *)

Ltac run_deferred Ht Hc :=
  unfold bind; rewrite (spread_literal_ok _ _ _ _ Ht); cbv beta iota;
  cbv beta delta
    [Container_of Directory_of File_of
     Container_new Directory_new File_new bind];
  rewrite (BaseClient_new_child _ _ _ Hc);
  eexists; split; reflexivity.

Lemma invoke_spec this d w t :
  heap w !! _queryTree (Container.base this) = Some t ->
  constructed (Container.base this) ->
  exists o,
    invoke this d w = (Ok o, with_array w (t ++ [node_of d]))
    /\ obj_base o = derived w (Container.base this).
Proof.
  intros Ht Hc.
  destruct d; unfold invoke, node_of;
    [ unfold Container_build | unfold Container_directory
    | unfold Container_file | unfold Container_from
    | unfold Container_withExec | unfold Container_withWorkdir ];
    run_deferred Ht Hc.
Qed.

Lemma sample_allocated :
  heap sample_world !! _queryTree sample_base = Some [leaf "container"].
Proof. reflexivity. Defined.

Lemma sample_constructed : constructed sample_base.
Proof. split; [discriminate | reflexivity]. Defined.

Create HintDb heap.
#[local] Hint Resolve with_array_frame with_array_fresh fresh_not_allocated
  : heap.

Section DeferredCalls.

Variable this : Container.t.
Variable w : World.
Variable t : list QueryTree.
Hypothesis tree_of_this : heap w !! _queryTree (Container.base this) = Some t.
Hypothesis this_constructed : constructed (Container.base this).

(** C1. A deferred call on a Chainable Object A leaves A's query tree as
    it was (same array, same nodes), puts the new object's tree in a new
    array that holds A's nodes followed by exactly the one node of the
    call, and changes no array that existed before. *)
Theorem deferred_call_appends_one_node (d : Deferred) :
  exists o w',
    invoke this d w = (Ok o, w')
    /\ heap w' !! _queryTree (Container.base this) = Some t
    /\ heap w' !! _queryTree (obj_base o) = Some (t ++ [node_of d])
    /\ heap w !! _queryTree (obj_base o) = None
    /\ _queryTree (obj_base o) <> _queryTree (Container.base this)
    /\ (forall l t0, heap w !! l = Some t0 -> heap w' !! l = Some t0).
Proof.
  destruct (invoke_spec this d w t tree_of_this this_constructed)
    as (o & E & B).
  exists o, (with_array w (t ++ [node_of d])).
  rewrite B. simpl _queryTree.
  split; [exact E |].
  split; [auto with heap |].
  split; [auto with heap |].
  split; [apply not_elem_of_dom, is_fresh |].
  split; [eauto with heap |].
  auto with heap.
Qed.

(** C8. Two deferred calls on the same object A give two objects whose
    trees both start with A's nodes and differ only at the position after
    them; the second call leaves the first object's tree and A's tree as
    they were. *)
Theorem fork_keeps_both_branches (d1 d2 : Deferred) :
  exists b w1 c w2,
    invoke this d1 w = (Ok b, w1)
    /\ invoke this d2 w1 = (Ok c, w2)
    /\ heap w1 !! _queryTree (obj_base b) = Some (t ++ [node_of d1])
    /\ heap w2 !! _queryTree (obj_base b) = Some (t ++ [node_of d1])
    /\ heap w2 !! _queryTree (obj_base c) = Some (t ++ [node_of d2])
    /\ heap w2 !! _queryTree (Container.base this) = Some t
    /\ _queryTree (obj_base b) <> _queryTree (obj_base c)
    /\ take (length t) (t ++ [node_of d1]) = t
    /\ take (length t) (t ++ [node_of d2]) = t
    /\ (forall i, (t ++ [node_of d1]) !! i <> (t ++ [node_of d2]) !! i ->
                  i = length t).
Proof.
  destruct (invoke_spec this d1 w t tree_of_this this_constructed)
    as (b & E1 & B1).
  pose proof (with_array_frame w (t ++ [node_of d1]) _ _ tree_of_this) as Ht1.
  destruct (invoke_spec this d2 _ t Ht1 this_constructed) as (c & E2 & B2).
  pose proof (with_array_fresh w (t ++ [node_of d1])) as Hb.
  eexists b, _, c, _.
  split; [exact E1 |]. split; [exact E2 |].
  rewrite B1, B2. cbn [derived _queryTree].
  split; [exact Hb |].
  split; [apply with_array_frame; exact Hb |].
  split; [apply with_array_fresh |].
  split; [apply with_array_frame; exact Ht1 |].
  split; [intros F; symmetry in F; revert F;
          eapply fresh_not_allocated; exact Hb |].
  split; [apply take_app_length |].
  split; [apply take_app_length |].
  intros i Hi.
  destruct (Nat.lt_trichotomy i (length t)) as [L | [L | L]]; [| exact L |].
  - exfalso. apply Hi. rewrite !lookup_app_l by exact L. reflexivity.
  - exfalso. apply Hi.
    rewrite !lookup_ge_None_2; [reflexivity | |];
      rewrite length_app; simpl; lia.
Qed.

End DeferredCalls.

(** C4. No constructor looks at operation names: whatever nodes the tree
    holds, construction succeeds as soon as [btoa] accepts the session
    token, fails with [InvalidCharacterError] and in no other way, and
    sends nothing either way; every deferred call on a constructed object
    succeeds and sends nothing. *)
Theorem construction_ignores_operation_names :
  (forall parent w,
      latin1 (to_string (cfg_sessionToken (default empty_config parent))) = true ->
      exists b w', BaseClient_new parent w = (Ok b, w') /\ sent w' = sent w)
  /\ (forall parent w e w',
        BaseClient_new parent w = (Throw e, w') ->
        e = InvalidCharacterError
        /\ latin1 (to_string (cfg_sessionToken (default empty_config parent))) = false
        /\ sent w' = sent w)
  /\ (forall (this : Container.t) d w t,
        heap w !! _queryTree (Container.base this) = Some t ->
        constructed (Container.base this) ->
        exists o w',
          invoke this d w = (Ok o, w')
          /\ sent w' = sent w
          /\ heap w' !! _queryTree (obj_base o) = Some (t ++ [node_of d])).
Proof.
  split; [| split].
  - intros parent w L. rewrite BaseClient_new_eq. cbv zeta.
    unfold btoa. rewrite latin1_app, L. simpl.
    eexists _, _. split; [reflexivity |].
    destruct (queryTree _); reflexivity.
  - intros parent w e w'. rewrite BaseClient_new_eq. cbv zeta.
    unfold btoa. rewrite latin1_app.
    destruct (latin1 (to_string _)); simpl; [discriminate |].
    intros E. injection E as <- <-.
    repeat split. destruct (queryTree _); reflexivity.
  - intros this d w t Ht Hc.
    destruct (invoke_spec this d w t Ht Hc) as (o & E & B).
    exists o, (with_array w (t ++ [node_of d])). rewrite B.
    split; [exact E |]. split; [reflexivity | apply with_array_fresh].
Qed.

(** C4, as stated, fails: a constructor given a tree whose node has an
    empty operation name returns normally. *)
Lemma empty_operation_accepted : ~ empty_operation_rejected.
Proof.
  intros H.
  destruct (H nameless_world 0%nat [nameless_node] nameless_node)
    as (e & w' & E).
  - reflexivity.
  - apply list_elem_of_here.
  - reflexivity.
  - vm_compute in E. discriminate E.
Qed.

(** ** Terminal accessors *)

Lemma query_ok a ns c w t :
  heap w !! a = Some t ->
  bind (spread_literal a ns) (fun qt => computeQuery qt c) w
  = (remote w (sent w) {| req_tree := t ++ ns; req_client := c |},
     with_sent (with_array w (t ++ ns))
       {| req_tree := t ++ ns; req_client := c |}).
Proof.
  intros Ht. unfold bind. rewrite (spread_literal_ok _ _ _ _ Ht).
  unfold computeQuery. rewrite with_array_fresh. reflexivity.
Qed.

Lemma call_cached a w :
  truthy (cache_of a) = true -> call a w = (Ok (cache_of a), w).
Proof.
  destruct a; simpl; intros E;
    unfold Container_id, Container_export, Container_publish,
      EnvVariable_name, EnvVariable_value, File_size, Port_port;
    rewrite E; reflexivity.
Qed.

Lemma call_uncached a w t :
  truthy (cache_of a) = false ->
  heap w !! _queryTree (receiver a) = Some t ->
  call a w
  = (remote w (sent w) (request_for (receiver a) t [selection a]),
     with_sent (with_array w (t ++ [selection a]))
       (request_for (receiver a) t [selection a])).
Proof.
  destruct a; simpl; intros E Ht;
    unfold Container_id, Container_export, Container_publish,
      EnvVariable_name, EnvVariable_value, File_size, Port_port;
    rewrite E; apply query_ok; exact Ht.
Qed.

Lemma cache_of_with_cache v a : cache_of (with_cache v a) = v.
Proof. destruct a; reflexivity. Qed.

Lemma receiver_with_cache v a : receiver (with_cache v a) = receiver a.
Proof. destruct a; reflexivity. Qed.

Lemma selection_with_cache v a : selection (with_cache v a) = selection a.
Proof. destruct a; reflexivity. Qed.

Lemma invoke_container_uncached this d w c w' :
  invoke this d w = (Ok (OContainer c), w') ->
  c = container_on (Container.base c) VUndefined.
Proof.
  destruct d; unfold invoke, Container_build, Container_directory,
    Container_file, Container_from, Container_withExec,
    Container_withWorkdir, Container_of, Directory_of, File_of,
    Container_new, Directory_new, File_new, bind, ret;
    destruct (spread_literal _ _ w) as [[q | e] w1];
    try discriminate;
    destruct (BaseClient_new _ w1) as [[b | e] w2];
    try discriminate;
    intros E; injection E as <- _; reflexivity.
Qed.

(** C10. An accessor whose field holds the empty string, the number 0 or
    [false] behaves exactly as it does with the field [undefined]: it
    sends one request for the receiver's nodes followed by its own node
    and returns the answer of the engine. *)
Theorem falsy_field_is_resolved_remotely
  (a : Accessor) (v : Value) (w : World) (t : list QueryTree) :
  v = VStr [] \/ v = VNum 0 \/ v = VBool false ->
  heap w !! _queryTree (receiver a) = Some t ->
  call (with_cache v a) w = call (with_cache VUndefined a) w
  /\ exists w',
       call (with_cache v a) w
       = (remote w (sent w) (request_for (receiver a) t [selection a]), w')
       /\ sent w' = sent w ++ [request_for (receiver a) t [selection a]].
Proof.
  intros Hv Ht.
  assert (Hf : truthy v = false)
    by (destruct Hv as [-> | [-> | ->]]; reflexivity).
  pose proof (call_uncached (with_cache v a) w t) as E1.
  pose proof (call_uncached (with_cache VUndefined a) w t) as E2.
  rewrite cache_of_with_cache, receiver_with_cache, selection_with_cache
    in E1, E2.
  specialize (E1 Hf Ht). specialize (E2 eq_refl Ht).
  split; [rewrite E1, E2; reflexivity |].
  eexists. split; [exact E1 | reflexivity].
Qed.

(** C2. A terminal call whose field is not truthy sends a request each
    time it is invoked: two invocations use two new arrays and send the
    same request twice, each answered by the engine on its own; and a
    container returned by a deferred call has no cached field, so that its
    [export] and [publish] always reach the engine. *)
Theorem uncached_call_sends_every_time :
  (forall (a : Accessor) w t,
      truthy (cache_of a) = false ->
      heap w !! _queryTree (receiver a) = Some t ->
      exists w1 w2,
        let rq := request_for (receiver a) t [selection a] in
        call a w = (remote w (sent w) rq, w1)
        /\ call a w1 = (remote w (sent w ++ [rq]) rq, w2)
        /\ sent w1 = sent w ++ [rq]
        /\ sent w2 = sent w ++ [rq; rq])
  /\ (forall (this : Container.t) d w c w',
        invoke this d w = (Ok (OContainer c), w') ->
        truthy (Container._export c) = false
        /\ truthy (Container._publish c) = false).
Proof.
  split.
  - intros a w t Hf Ht.
    pose proof (call_uncached a w t Hf Ht) as E1.
    pose proof (with_array_frame w (t ++ [selection a]) _ _ Ht) as Ht1.
    pose proof (call_uncached a
                  (with_sent (with_array w (t ++ [selection a]))
                     (request_for (receiver a) t [selection a])) t Hf Ht1)
      as E2.
    eexists _, _. cbv zeta.
    split; [exact E1 |]. split; [exact E2 |].
    split; [reflexivity |].
    simpl. rewrite <- app_assoc. reflexivity.
  - intros this d w c w' E.
    rewrite (invoke_container_uncached _ _ _ _ _ E). split; reflexivity.
Qed.

(** C2, as stated, fails: a container built with [_export] set to [true]
    answers [export] from that field and sends nothing. *)
Lemma cached_export_sends_nothing : ~ export_always_sends.
Proof.
  intros H.
  specialize (H (sample_container (VBool true)) (js "./out.tar") None
                sample_world [leaf "container"]
                (Ok (VBool true)) sample_world
                (Ok (VBool true)) sample_world
                eq_refl eq_refl eq_refl).
  simpl in H. discriminate H.
Qed.

(** ** Lifting a response *)

Lemma mapM_ok {A B} (f : A -> M B) (g : A -> B) (l : list A) w :
  (forall a, a ∈ l -> f a w = (Ok (g a), w)) ->
  mapM f l w = (Ok (g <$> l), w).
Proof.
  induction l as [|a l IH]; intros H; simpl; [reflexivity |].
  unfold bind at 1. rewrite (H a) by apply list_elem_of_here.
  unfold bind at 1. rewrite IH; [reflexivity |].
  intros a' Ha'. apply H. apply list_elem_of_further. exact Ha'.
Qed.

Lemma get_prop_readable r k w :
  readable r -> get_prop r k w = (Ok (field r k), w).
Proof. intros [H1 H2]. destruct r; try reflexivity; congruence. Qed.

Lemma lift_variable_ok b r w :
  constructed b -> readable r ->
  bind (get_prop r (js "name")) (fun name =>
    bind (get_prop r (js "value")) (fun value =>
      EnvVariable_new (child_config (get_queryTree b) b) name value)) w
  = (Ok (lift_variable (lifted w b) r), w).
Proof.
  intros Hc Hr.
  rewrite (bind_ok _ _ _ _ _ (get_prop_readable r _ w Hr)).
  rewrite (bind_ok _ _ _ _ _ (get_prop_readable r _ w Hr)).
  unfold EnvVariable_new.
  rewrite (bind_ok _ _ _ _ _ (BaseClient_new_child _ b w Hc)).
  reflexivity.
Qed.

Lemma lift_port_ok b r w :
  constructed b -> readable r ->
  bind (get_prop r (js "description")) (fun description =>
    bind (get_prop r (js "port")) (fun port =>
      bind (get_prop r (js "protocol")) (fun protocol =>
        Port_new (child_config (get_queryTree b) b)
          description port protocol))) w
  = (Ok (lift_port (lifted w b) r), w).
Proof.
  intros Hc Hr.
  rewrite (bind_ok _ _ _ _ _ (get_prop_readable r _ w Hr)).
  rewrite (bind_ok _ _ _ _ _ (get_prop_readable r _ w Hr)).
  rewrite (bind_ok _ _ _ _ _ (get_prop_readable r _ w Hr)).
  unfold Port_new.
  rewrite (bind_ok _ _ _ _ _ (BaseClient_new_child _ b w Hc)).
  reflexivity.
Qed.

(** C3. [envVariables] and [exposedPorts] send the receiver's nodes
    followed by the array field and the sub-selection; each record of the
    answer becomes one object, in order, that holds the record's fields
    and whose tree is the receiver's own array, hence the receiver's
    nodes and nothing more. *)
Theorem lifted_objects_share_the_parent_tree
  (this : Container.t) (w : World) (t : list QueryTree) (items : list Value) :
  heap w !! _queryTree (Container.base this) = Some t ->
  constructed (Container.base this) ->
  Forall readable items ->
  (remote w (sent w) (request_for (Container.base this) t variables_selection)
   = Ok (VArr items) ->
   exists w',
     Container_envVariables this w
     = (Ok (lift_variable (lifted w (Container.base this)) <$> items), w')
     /\ sent w' = sent w
                  ++ [request_for (Container.base this) t variables_selection]
     /\ heap w' !! _queryTree (lifted w (Container.base this)) = Some t)
  /\ (remote w (sent w) (request_for (Container.base this) t ports_selection)
      = Ok (VArr items) ->
      exists w',
        Container_exposedPorts this w
        = (Ok (lift_port (lifted w (Container.base this)) <$> items), w')
        /\ sent w' = sent w
                     ++ [request_for (Container.base this) t ports_selection]
        /\ heap w' !! _queryTree (lifted w (Container.base this)) = Some t).
Proof.
  intros Ht Hc Hr. split; intros Ha.
  - eexists. split; [| split].
    + unfold Container_envVariables.
      unfold bind at 1 2.
      unfold bind at 1.
      rewrite (spread_literal_ok _ _ _ _ Ht).
      unfold computeQuery. rewrite with_array_fresh.
      cbn [remote sent with_array].
      unfold request_for, variables_selection in Ha. rewrite Ha.
      unfold array_map.
      apply (mapM_ok _ (lift_variable (lifted w (Container.base this)))).
      intros r Hin. rewrite Forall_forall in Hr.
      etransitivity;
        [apply (lift_variable_ok (Container.base this) r);
           [exact Hc | apply Hr; exact Hin]
        | reflexivity].
    + reflexivity.
    + simpl. apply with_array_frame. exact Ht.
  - eexists. split; [| split].
    + unfold Container_exposedPorts.
      unfold bind at 1 2.
      unfold bind at 1.
      rewrite (spread_literal_ok _ _ _ _ Ht).
      unfold computeQuery. rewrite with_array_fresh.
      cbn [remote sent with_array].
      unfold request_for, ports_selection in Ha. rewrite Ha.
      unfold array_map.
      apply (mapM_ok _ (lift_port (lifted w (Container.base this)))).
      intros r Hin. rewrite Forall_forall in Hr.
      etransitivity;
        [apply (lift_port_ok (Container.base this) r);
           [exact Hc | apply Hr; exact Hin]
        | reflexivity].
    + reflexivity.
    + simpl. apply with_array_frame. exact Ht.
Qed.

(** C3, as stated, fails: the variable lifted from a one-record answer
    has the one node of its parent as its tree. *)
Lemma lifted_tree_is_the_parent_tree : ~ lifted_tree_extends_parent.
Proof.
  intros H.
  assert (E : exists e w',
             Container_envVariables (sample_container VUndefined) sample_world
             = (Ok [e], w')
             /\ heap w' !! _queryTree (EnvVariable.base e)
                = Some [leaf "container"]).
  { eexists _, _. split; reflexivity. }
  destruct E as (e & w' & E1 & E2).
  specialize (H (sample_container VUndefined) sample_world [leaf "container"]
                [e] w' e sample_allocated E1 (list_elem_of_here _ _)).
  rewrite E2 in H. discriminate H.
Qed.

(** ** The endpoint *)

Lemma startsWith_split_head sep h : startsWith h (split_head sep h) = true.
Proof.
  induction h as [|c h IH]; simpl; [reflexivity |].
  destruct (c =? sep); simpl; [reflexivity |].
  rewrite N.eqb_refl. exact IH.
Qed.

Lemma scheme_of_http h :
  scheme_of h = js "http" <->
  startsWith h (js "localhost") = true
  \/ contains_dotted_quad (split_head colon h).
Proof.
  unfold scheme_of. rewrite <- search_ipv4, <- orb_true_iff.
  destruct (_ || _); split; intros E; try reflexivity; discriminate E.
Qed.

(** C5. The URL of the transport is the scheme, [://], the host and
    [/query]; the scheme is [http] exactly when the host starts with
    [localhost] or the part of the host before its first colon contains
    four groups of one to three digits separated by dots, and [https]
    otherwise; in particular [localhost] and a dotted quad, with or
    without a port, get [http]. *)
Theorem scheme_follows_prefix_and_pattern parent w b w' :
  BaseClient_new parent w = (Ok b, w') ->
  (exists rest,
      url (client b)
      = scheme_of (clientHost b) ++ js "://" ++ clientHost b ++ js "/query" ++ rest)
  /\ (scheme_of (clientHost b) = js "http" <->
      startsWith (clientHost b) (js "localhost") = true
      \/ contains_dotted_quad (split_head colon (clientHost b)))
  /\ (scheme_of (clientHost b) <> js "http" ->
      scheme_of (clientHost b) = js "https")
  /\ (localhost_or_ipv4 (clientHost b) -> scheme_of (clientHost b) = js "http").
Proof.
  rewrite BaseClient_new_eq. cbv zeta.
  destruct (btoa _) as [auth | e]; [| discriminate].
  intros E. injection E as <- _. cbn [client clientHost client_of url].
  set (h := or_else _ default_host).
  split; [| split; [| split]].
  - unfold url_of. destruct (env w FLUENTCI_SESSION_ID) as [id |].
    + exists (js "?id=" ++ id). reflexivity.
    + exists []. reflexivity.
  - apply scheme_of_http.
  - unfold scheme_of. destruct (_ || _); [congruence | reflexivity].
  - intros [L | Q]; apply scheme_of_http.
    + left. rewrite <- L. apply startsWith_split_head.
    + right. exists [], (split_head colon h), [].
      rewrite app_nil_r. split; [reflexivity | exact Q].
Qed.

(** C5, as stated, fails: the host [localhost.example.com] is neither
    [localhost] nor a dotted quad and gets an [http://] URL. *)
Lemma lookalike_host_gets_http : ~ http_only_for_localhost_or_ipv4.
Proof.
  intros H.
  assert (E : exists b w',
             BaseClient_new localhost_lookalike sample_world = (Ok b, w')
             /\ startsWith (url (client b)) (js "http://") = true
             /\ clientHost b = js "localhost.example.com").
  { eexists _, _. rewrite BaseClient_new_eq.
    split; [reflexivity | split; reflexivity]. }
  destruct E as (b & w' & E & U & Hh).
  apply (H _ _ _ _ E) in U. rewrite Hh in U.
  destruct U as [L | Q].
  - vm_compute in L. discriminate L.
  - apply matches_ipv4, full_match_spec in Q. vm_compute in Q. discriminate Q.
Qed.

(** C6. When a session token is given, the Authorization header is
    [Basic ] followed by the base64 text of the token and a colon. The
    session header is always there: with the value of
    [FLUENTCI_SESSION_ID] when the variable is set, and then the URL ends
    with [/query?id=] and the same value; with the empty string when it
    is not set, and then the URL ends with [/query]. *)
Theorem transport_carries_token_and_session parent w b w' :
  BaseClient_new parent w = (Ok b, w') ->
  (forall cfg s,
      parent = Some cfg -> cfg_sessionToken cfg = Some s ->
      header (js "Authorization") (client b)
      = Some (js "Basic " ++ b64_encode (s ++ js ":")))
  /\ (forall id,
        env w FLUENTCI_SESSION_ID = Some id ->
        header session_header (client b) = Some id
        /\ url (client b)
           = scheme_of (clientHost b) ++ js "://" ++ clientHost b
             ++ js "/query?id=" ++ id)
  /\ (env w FLUENTCI_SESSION_ID = None ->
      header session_header (client b) = Some []
      /\ url (client b)
         = scheme_of (clientHost b) ++ js "://" ++ clientHost b ++ js "/query").
Proof.
  rewrite BaseClient_new_eq. cbv zeta. unfold btoa.
  destruct (latin1 _); [| discriminate].
  intros E. injection E as <- _. cbn [client clientHost client_of url].
  split; [| split].
  - intros cfg s -> Hs. simpl. rewrite Hs. reflexivity.
  - intros id Hid. unfold header, client_of. cbn [headers url].
    rewrite Hid. split; [| reflexivity].
    destruct id; reflexivity.
  - intros Hid. unfold header, client_of. cbn [headers url].
    rewrite Hid. split; reflexivity.
Qed.

(** C6, as stated, fails in its last part: without the environment
    variable the transport still has the session header. *)
Lemma session_header_without_variable : ~ session_header_only_when_set.
Proof.
  intros H.
  assert (E : exists b w',
             BaseClient_new None sample_world = (Ok b, w')
             /\ header session_header (client b) = Some []).
  { eexists _, _. rewrite BaseClient_new_eq. split; reflexivity. }
  destruct E as (b & w' & E & Hh).
  destruct (H _ _ _ _ E) as [id Hid].
  - rewrite Hh. eexists. reflexivity.
  - discriminate Hid.
Qed.

(** Without a session token the credential is the text [undefined:]. *)
Example authorization_without_token :
  exists b w',
    BaseClient_new None sample_world = (Ok b, w')
    /\ header (js "Authorization") (client b)
       = Some (js "Basic dW5kZWZpbmVkOg==")
    /\ sessionToken b = [].
Proof.
  eexists _, _. rewrite BaseClient_new_eq.
  split; [reflexivity | split; reflexivity].
Qed.

(** ** The sample objects *)

Lemma default_object_built :
  BaseClient_new None sample_world
  = (Ok default_object, with_array sample_world []).
Proof. vm_compute. reflexivity. Defined.

Lemma session_object_built :
  BaseClient_new sample_config session_world = (Ok session_object, session_world).
Proof. vm_compute. reflexivity. Defined.

Lemma plain_object_built :
  BaseClient_new sample_config sample_world = (Ok plain_object, sample_world).
Proof. vm_compute. reflexivity. Defined.

(** ** The theorems at the sample inputs *)

Lemma deferred_call_appends_one_node_witness :
  heap sample_world !! _queryTree sample_base = Some [leaf "container"]
  /\ constructed sample_base
  /\ exists o w',
       invoke (sample_container VUndefined) (From (js "alpine")) sample_world
       = (Ok o, w')
       /\ heap w' !! _queryTree sample_base = Some [leaf "container"]
       /\ heap w' !! _queryTree (obj_base o)
          = Some ([leaf "container"] ++ [from_node (js "alpine")])
       /\ heap sample_world !! _queryTree (obj_base o) = None
       /\ _queryTree (obj_base o) <> _queryTree sample_base
       /\ (forall l t0,
             heap sample_world !! l = Some t0 -> heap w' !! l = Some t0).
Proof.
  split; [reflexivity |].
  split; [split; [discriminate | reflexivity] |].
  exact (deferred_call_appends_one_node
           (sample_container VUndefined) sample_world [leaf "container"]
           sample_allocated sample_constructed (From (js "alpine"))).
Defined.

Lemma fork_keeps_both_branches_witness :
  heap sample_world !! _queryTree sample_base = Some [leaf "container"]
  /\ constructed sample_base
  /\ exists b w1 c w2,
       invoke (sample_container VUndefined) (WithExec [js "ls"] None)
         sample_world = (Ok b, w1)
       /\ invoke (sample_container VUndefined) (WithWorkdir (js "/app")) w1
          = (Ok c, w2)
       /\ heap w1 !! _queryTree (obj_base b)
          = Some ([leaf "container"] ++ [withExec_node [js "ls"] None])
       /\ heap w2 !! _queryTree (obj_base b)
          = Some ([leaf "container"] ++ [withExec_node [js "ls"] None])
       /\ heap w2 !! _queryTree (obj_base c)
          = Some ([leaf "container"] ++ [withWorkdir_node (js "/app")])
       /\ heap w2 !! _queryTree sample_base = Some [leaf "container"]
       /\ _queryTree (obj_base b) <> _queryTree (obj_base c)
       /\ take 1 ([leaf "container"] ++ [withExec_node [js "ls"] None])
          = [leaf "container"]
       /\ take 1 ([leaf "container"] ++ [withWorkdir_node (js "/app")])
          = [leaf "container"]
       /\ (forall i,
             ([leaf "container"] ++ [withExec_node [js "ls"] None]) !! i
             <> ([leaf "container"] ++ [withWorkdir_node (js "/app")]) !! i ->
             i = 1%nat).
Proof.
  split; [reflexivity |].
  split; [split; [discriminate | reflexivity] |].
  exact (fork_keeps_both_branches
           (sample_container VUndefined) sample_world [leaf "container"]
           sample_allocated sample_constructed
           (WithExec [js "ls"] None) (WithWorkdir (js "/app"))).
Defined.

Lemma remote_allocated :
  heap sample_world !! _queryTree remote_base = Some [leaf "container"].
Proof. reflexivity. Defined.

Lemma remote_constructed : constructed remote_base.
Proof. split; [discriminate | reflexivity]. Defined.

Lemma nameless_allocated :
  heap nameless_world !! _queryTree sample_base = Some [nameless_node].
Proof. reflexivity. Defined.

Lemma wide_token_rejected :
  BaseClient_new wide_token_config sample_world
  = (Throw InvalidCharacterError, sample_world).
Proof. vm_compute. reflexivity. Defined.

Lemma construction_ignores_operation_names_witness :
  (latin1 (to_string (cfg_sessionToken (default empty_config (tree_config 0%nat))))
   = true
   /\ exists b w',
        BaseClient_new (tree_config 0%nat) nameless_world = (Ok b, w')
        /\ sent w' = sent nameless_world)
  /\ (BaseClient_new wide_token_config sample_world
      = (Throw InvalidCharacterError, sample_world)
      /\ InvalidCharacterError = InvalidCharacterError
      /\ latin1 (to_string (cfg_sessionToken
                              (default empty_config wide_token_config))) = false
      /\ sent sample_world = sent sample_world)
  /\ (heap nameless_world !! _queryTree sample_base = Some [nameless_node]
      /\ constructed sample_base
      /\ exists o w',
           invoke (sample_container VUndefined) (WithWorkdir (js "/app"))
             nameless_world = (Ok o, w')
           /\ sent w' = sent nameless_world
           /\ heap w' !! _queryTree (obj_base o)
              = Some ([nameless_node] ++ [withWorkdir_node (js "/app")])).
Proof.
  split; [| split].
  - split; [reflexivity |].
    exact (proj1 construction_ignores_operation_names
             (tree_config 0%nat) nameless_world eq_refl).
  - split; [vm_compute; reflexivity |].
    exact (proj1 (proj2 construction_ignores_operation_names)
             wide_token_config sample_world _ _ wide_token_rejected).
  - split; [reflexivity |].
    split; [split; [discriminate | reflexivity] |].
    exact (proj2 (proj2 construction_ignores_operation_names)
             (sample_container VUndefined) (WithWorkdir (js "/app"))
             nameless_world [nameless_node] nameless_allocated
             sample_constructed).
Defined.

Lemma falsy_field_is_resolved_remotely_witness :
  (VNum 0 = VStr [] \/ VNum 0 = VNum 0 \/ VNum 0 = VBool false)
  /\ heap sample_world !! _queryTree sample_base = Some [leaf "container"]
  /\ call (FileSize (sample_file (VNum 0))) sample_world
     = call (FileSize (sample_file VUndefined)) sample_world
  /\ exists w',
       call (FileSize (sample_file (VNum 0))) sample_world
       = (remote sample_world (sent sample_world)
            (request_for sample_base [leaf "container"] [leaf "size"]), w')
       /\ sent w'
          = sent sample_world
            ++ [request_for sample_base [leaf "container"] [leaf "size"]].
Proof.
  split; [right; left; reflexivity |].
  split; [reflexivity |].
  exact (falsy_field_is_resolved_remotely
           (FileSize (sample_file VUndefined)) (VNum 0) sample_world
           [leaf "container"] (or_intror (or_introl eq_refl))
           sample_allocated).
Defined.

Lemma deferred_container_built :
  invoke (sample_container (VBool true)) (From (js "alpine")) sample_world
  = (Ok (OContainer (container_on (derived sample_world sample_base) VUndefined)),
     with_array sample_world ([leaf "container"] ++ [from_node (js "alpine")])).
Proof. vm_compute. reflexivity. Defined.

Lemma uncached_call_sends_every_time_witness :
  (truthy (cache_of (ContainerExport (sample_container (VBool false))
                       (js "./out.tar") None)) = false
   /\ heap sample_world !! _queryTree sample_base = Some [leaf "container"]
   /\ exists w1 w2,
        let a := ContainerExport (sample_container (VBool false))
                   (js "./out.tar") None in
        let rq := request_for sample_base [leaf "container"]
                    [export_node (js "./out.tar") None] in
        call a sample_world = (remote sample_world (sent sample_world) rq, w1)
        /\ call a w1 = (remote sample_world (sent sample_world ++ [rq]) rq, w2)
        /\ sent w1 = sent sample_world ++ [rq]
        /\ sent w2 = sent sample_world ++ [rq; rq])
  /\ (invoke (sample_container (VBool true)) (From (js "alpine")) sample_world
      = (Ok (OContainer
               (container_on (derived sample_world sample_base) VUndefined)),
         with_array sample_world
           ([leaf "container"] ++ [from_node (js "alpine")]))
      /\ truthy (Container._export
                   (container_on (derived sample_world sample_base) VUndefined))
         = false
      /\ truthy (Container._publish
                   (container_on (derived sample_world sample_base) VUndefined))
         = false).
Proof.
  split.
  - split; [reflexivity |]. split; [reflexivity |].
    exact (proj1 uncached_call_sends_every_time
             (ContainerExport (sample_container (VBool false))
                (js "./out.tar") None)
             sample_world [leaf "container"] eq_refl sample_allocated).
  - split; [vm_compute; reflexivity |].
    exact (proj2 uncached_call_sends_every_time
             (sample_container (VBool true)) (From (js "alpine")) sample_world
             _ _ deferred_container_built).
Defined.

Lemma sample_entry_readable : Forall readable [sample_env_entry].
Proof.
  apply List.Forall_cons; [split; discriminate | apply List.Forall_nil].
Defined.

Lemma lifted_objects_share_the_parent_tree_witness :
  heap sample_world !! _queryTree sample_base = Some [leaf "container"]
  /\ constructed sample_base
  /\ Forall readable [sample_env_entry]
  /\ remote sample_world (sent sample_world)
       (request_for sample_base [leaf "container"] variables_selection)
     = Ok (VArr [sample_env_entry])
  /\ exists w',
       Container_envVariables (sample_container VUndefined) sample_world
       = (Ok [lift_variable (lifted sample_world sample_base) sample_env_entry],
          w')
       /\ sent w'
          = sent sample_world
            ++ [request_for sample_base [leaf "container"] variables_selection]
       /\ heap w' !! _queryTree (lifted sample_world sample_base)
          = Some [leaf "container"].
Proof.
  split; [reflexivity |].
  split; [split; [discriminate | reflexivity] |].
  split; [exact sample_entry_readable |].
  split; [reflexivity |].
  exact (proj1 (lifted_objects_share_the_parent_tree
                  (sample_container VUndefined) sample_world
                  [leaf "container"] [sample_env_entry]
                  sample_allocated sample_constructed sample_entry_readable)
           eq_refl).
Defined.

Lemma scheme_follows_prefix_and_pattern_witness :
  BaseClient_new sample_config session_world = (Ok session_object, session_world)
  /\ (exists rest,
         url (client session_object)
         = scheme_of (clientHost session_object) ++ js "://"
           ++ clientHost session_object ++ js "/query" ++ rest)
  /\ (scheme_of (clientHost session_object) = js "http" <->
      startsWith (clientHost session_object) (js "localhost") = true
      \/ contains_dotted_quad (split_head colon (clientHost session_object)))
  /\ (scheme_of (clientHost session_object) <> js "http" ->
      scheme_of (clientHost session_object) = js "https")
  /\ (localhost_or_ipv4 (clientHost session_object) ->
      scheme_of (clientHost session_object) = js "http").
Proof.
  split; [vm_compute; reflexivity |].
  exact (scheme_follows_prefix_and_pattern
           sample_config session_world session_object session_world
           session_object_built).
Defined.

Lemma transport_carries_token_and_session_witness :
  (BaseClient_new sample_config session_world
   = (Ok session_object, session_world)
   /\ env session_world FLUENTCI_SESSION_ID = Some (js "42")
   /\ header (js "Authorization") (client session_object)
      = Some (js "Basic " ++ b64_encode (js "tok" ++ js ":"))
   /\ header session_header (client session_object) = Some (js "42")
   /\ url (client session_object)
      = scheme_of (clientHost session_object) ++ js "://"
        ++ clientHost session_object ++ js "/query?id=" ++ js "42")
  /\ (BaseClient_new sample_config sample_world = (Ok plain_object, sample_world)
      /\ env sample_world FLUENTCI_SESSION_ID = None
      /\ header session_header (client plain_object) = Some []
      /\ url (client plain_object)
         = scheme_of (clientHost plain_object) ++ js "://"
           ++ clientHost plain_object ++ js "/query").
Proof.
  pose proof (transport_carries_token_and_session
                sample_config session_world session_object session_world
                session_object_built) as (Ha & Hs & _).
  pose proof (transport_carries_token_and_session
                sample_config sample_world plain_object sample_world
                plain_object_built) as (_ & _ & Hn).
  split.
  - split; [vm_compute; reflexivity |]. split; [reflexivity |].
    split; [exact (Ha _ (js "tok") eq_refl eq_refl) |].
    exact (Hs (js "42") eq_refl).
  - split; [vm_compute; reflexivity |]. split; [reflexivity |].
    exact (Hn eq_refl).
Defined.

(** * Further properties *)

(** ** Object literals *)

Lemma field_cons k k' v o :
  field (VRec ((k', v) :: o)) k
  = if decide (k' = k) then v else field (VRec o) k.
Proof.
  unfold field.
  change (list_find (fun kv : jsstring * Value => kv.1 = k) ((k', v) :: o))
    with (if decide (k' = k) then Some (0%nat, (k', v))
          else prod_map S id
                 <$> list_find (fun kv : jsstring * Value => kv.1 = k) o).
  destruct (decide (k' = k)) as [E | E]; [reflexivity |].
  destruct (list_find _ o) as [[i [k2 v2]] |]; reflexivity.
Qed.

Lemma field_set_prop k v o k' :
  field (VRec (set_prop k v o)) k'
  = if decide (k = k') then v else field (VRec o) k'.
Proof.
  induction o as [| [k1 v1] o IH]; cbn [set_prop].
  - rewrite field_cons. destruct (decide (k = k')); reflexivity.
  - destruct (decide (k1 = k)) as [-> | N].
    + rewrite !field_cons. destruct (decide (k = k')); reflexivity.
    + rewrite !field_cons, IH.
      destruct (decide (k1 = k')) as [-> | N'];
        destruct (decide (k = k')); congruence.
Qed.

Lemma keys_cons k v o : keys ((k, v) :: o) = k :: keys o.
Proof. reflexivity. Qed.

Lemma keys_set_prop k v o :
  keys (set_prop k v o)
  = if decide (k ∈ keys o) then keys o else keys o ++ [k].
Proof.
  induction o as [| [k1 v1] o IH]; cbn [set_prop].
  - rewrite decide_False by apply not_elem_of_nil. reflexivity.
  - destruct (decide (k1 = k)) as [-> | N]; rewrite !keys_cons.
    + rewrite decide_True by apply list_elem_of_here. reflexivity.
    + rewrite IH. destruct (decide (k ∈ keys o)) as [I | I].
      * rewrite decide_True by (apply list_elem_of_further; exact I).
        reflexivity.
      * rewrite decide_False; [reflexivity |].
        intros I'. apply elem_of_cons in I' as [-> | I']; auto.
Qed.

Lemma set_prop_NoDup k v o : NoDup (keys o) -> NoDup (keys (set_prop k v o)).
Proof.
  intros H. rewrite keys_set_prop. destruct (decide (k ∈ keys o)) as [I | I].
  - exact H.
  - apply NoDup_app. split; [exact H |]. split.
    + intros x Hx Hk. apply list_elem_of_singleton in Hk as ->. auto.
    + apply NoDup_singleton.
Qed.

Lemma spread_props_NoDup opts o :
  NoDup (keys o) -> NoDup (keys (spread_props opts o)).
Proof.
  destruct opts as [ps |]; simpl; [| auto].
  revert o. induction ps as [| [k v] ps IH]; intros o H; simpl; [exact H |].
  apply IH, set_prop_NoDup, H.
Qed.

Lemma field_spread_props ps o k :
  NoDup (keys ps) ->
  field (VRec (spread_props (Some ps) o)) k
  = if decide (k ∈ keys ps) then field (VRec ps) k else field (VRec o) k.
Proof.
  cbn [spread_props]. revert o.
  induction ps as [| [k1 v1] ps IH]; intros o H; cbn [fold_left fst snd].
  - rewrite decide_False by apply not_elem_of_nil. reflexivity.
  - rewrite keys_cons in *. apply NoDup_cons in H as [H1 H2].
    rewrite (IH _ H2), field_set_prop, field_cons.
    destruct (decide (k1 = k)) as [-> | N].
    + rewrite decide_False by exact H1.
      rewrite decide_True by apply list_elem_of_here. reflexivity.
    + destruct (decide (k ∈ keys ps)) as [I | I].
      * rewrite decide_True by (apply list_elem_of_further; exact I).
        reflexivity.
      * rewrite decide_False; [reflexivity |].
        intros I'. apply elem_of_cons in I' as [-> | I']; auto.
Qed.

Lemma args_of_some n a : args n = Some a -> args_of n = a.
Proof. unfold args_of. intros ->. reflexivity. Qed.

Ltac distinct_keys :=
  apply (bool_decide_unpack _); vm_compute; reflexivity.

(** X1. Whatever the options object holds, even an entry named
    [__metadata], the arguments of [export], [publish] and
    [withExposedPort] carry the method's own enum table under
    [__metadata]. *)
Theorem metadata_is_never_overridden
  (opts : option (list (jsstring * Value))) :
  (forall path,
      field (VRec (args_of (export_node path opts))) metadata_key
      = compression_metadata)
  /\ (forall address,
        field (VRec (args_of (publish_node address opts))) metadata_key
        = compression_metadata)
  /\ (forall port,
        field (VRec (args_of (withExposedPort_node port opts))) metadata_key
        = protocol_metadata).
Proof.
  repeat split; intros; erewrite args_of_some by reflexivity;
    rewrite field_set_prop, decide_True; reflexivity.
Qed.

(** The arguments of every node a modelled method builds are an object
    with pairwise distinct keys, whatever the options object holds. *)
Lemma node_keys_are_distinct :
  (forall s : Step, NoDup (keys (args_of (step_node s))))
  /\ (forall d : Deferred, NoDup (keys (args_of (node_of d))))
  /\ (forall a : Accessor, NoDup (keys (args_of (selection a))))
  /\ (forall opts, NoDup (keys (args_of (container_node opts)))).
Proof.
  repeat split.
  - intros []; erewrite args_of_some by reflexivity;
      repeat first [apply set_prop_NoDup | apply spread_props_NoDup];
      distinct_keys.
  - intros []; erewrite args_of_some by reflexivity;
      repeat first [apply set_prop_NoDup | apply spread_props_NoDup];
      distinct_keys.
  - intros []; try (erewrite args_of_some by reflexivity);
      repeat first [apply set_prop_NoDup | apply spread_props_NoDup];
      distinct_keys.
  - intros opts. erewrite args_of_some by reflexivity.
    apply spread_props_NoDup. distinct_keys.
Qed.

(** X2. Every entry of an options object (itself with distinct keys)
    reaches the node under its own key with its own value, so that an
    entry named like a positional parameter takes the place of that
    parameter; a key the options do not have keeps what the method wrote
    for it. The key [__metadata] is apart: the method writes it last. *)
Theorem options_reach_the_node (s : Step) (ps : list (jsstring * Value))
  (k : jsstring) :
  step_opts s = Some ps ->
  NoDup (keys ps) ->
  k <> metadata_key ->
  (k ∈ keys ps -> field (VRec (args_of (step_node s))) k = field (VRec ps) k)
  /\ (k ∉ keys ps ->
      field (VRec (args_of (step_node s))) k = field (VRec (positional s)) k).
Proof.
  intros Ho Hn Hm.
  split; intros Hk.
  - destruct s; cbn [step_opts] in Ho; try discriminate; subst;
      erewrite args_of_some by reflexivity;
      try (rewrite field_set_prop, decide_False
             by (unfold metadata_key in Hm; congruence));
      rewrite (field_spread_props _ _ _ Hn), decide_True by exact Hk;
      reflexivity.
  - destruct s; cbn [step_opts] in Ho; try discriminate; subst;
      erewrite args_of_some by reflexivity;
      try (rewrite field_set_prop, decide_False
             by (unfold metadata_key in Hm; congruence));
      rewrite (field_spread_props _ _ _ Hn), decide_False by exact Hk;
      reflexivity.
Qed.

(** ** Chains of deferred calls *)

Ltac run_step Ht Hc :=
  unfold bind; rewrite (spread_literal_ok _ _ _ _ Ht); cbv beta iota;
  cbv beta delta [Container_of Container_new bind];
  rewrite (BaseClient_new_child _ _ _ Hc); reflexivity.

Lemma apply_step_spec this s w t :
  heap w !! _queryTree (Container.base this) = Some t ->
  constructed (Container.base this) ->
  apply_step this s w
  = (Ok (container_on (derived w (Container.base this)) VUndefined),
     with_array w (t ++ [step_node s])).
Proof.
  intros Ht Hc.
  destruct s; unfold apply_step, step_node;
    [ unfold Container_build | unfold Container_from
    | unfold Container_pipeline | unfold Container_withEnvVariable
    | unfold Container_withExec | unfold Container_withExposedPort
    | unfold Container_withMountedSecret
    | unfold Container_withSecretVariable | unfold Container_withWorkdir ];
    run_step Ht Hc.
Qed.

Lemma run_steps_spec steps :
  forall this w t,
    heap w !! _queryTree (Container.base this) = Some t ->
    constructed (Container.base this) ->
    exists c w',
      run_steps this steps w = (Ok c, w')
      /\ heap w' !! _queryTree (Container.base c)
         = Some (t ++ (step_node <$> steps))
      /\ sent w' = sent w /\ env w' = env w /\ remote w' = remote w
      /\ (forall l t0, heap w !! l = Some t0 -> heap w' !! l = Some t0)
      /\ clientHost (Container.base c) = clientHost (Container.base this)
      /\ sessionToken (Container.base c) = sessionToken (Container.base this)
      /\ (uncached this -> uncached c)
      /\ (steps <> [] -> uncached c).
Proof.
  induction steps as [| s steps IH]; intros this w t Ht Hc.
  - exists this, w. rewrite app_nil_r.
    repeat split; auto. congruence.
  - pose (c1 := container_on (derived w (Container.base this)) VUndefined).
    destruct (IH c1 (with_array w (t ++ [step_node s])) (t ++ [step_node s]))
      as (c & w' & E & Hh & Hs & He & Hr & Hf & Hcl & Htk & Hu & _).
    { apply with_array_fresh. }
    { exact Hc. }
    exists c, w'. cbn [run_steps].
    rewrite (bind_ok _ _ _ _ _ (apply_step_spec this s w t Ht Hc)).
    fold c1. rewrite <- app_assoc in Hh.
    repeat split; auto.
    + intros l t0 Hl. apply Hf. apply with_array_frame. exact Hl.
    + intros _. apply Hu. reflexivity.
    + intros _. apply Hu. reflexivity.
Qed.

(** X3. A chain of deferred calls on a container returns a container
    whose tree is the receiver's nodes followed by the nodes of the calls
    in call order; the chain sends nothing, leaves every array that
    existed before as it was (the receiver's and those of the objects in
    between), and keeps host and session token. *)
Theorem chain_builds_the_tree_in_call_order
  (this : Container.t) (steps : list Step) (w : World) (t : list QueryTree) :
  heap w !! _queryTree (Container.base this) = Some t ->
  constructed (Container.base this) ->
  exists c w',
    run_steps this steps w = (Ok c, w')
    /\ heap w' !! _queryTree (Container.base c)
       = Some (t ++ (step_node <$> steps))
    /\ sent w' = sent w
    /\ (forall l t0, heap w !! l = Some t0 -> heap w' !! l = Some t0)
    /\ clientHost (Container.base c) = clientHost (Container.base this)
    /\ sessionToken (Container.base c) = sessionToken (Container.base this).
Proof.
  intros Ht Hc.
  destruct (run_steps_spec steps this w t Ht Hc)
    as (c & w' & E & Hh & Hs & _ & _ & Hf & Hcl & Htk & _).
  exists c, w'. repeat split; auto.
Qed.

Lemma stdout_uncached c w t :
  uncached c ->
  heap w !! _queryTree (Container.base c) = Some t ->
  Container_stdout c w
  = (remote w (sent w) (request_for (Container.base c) t [leaf "stdout"]),
     with_sent (with_array w (t ++ [leaf "stdout"]))
       (request_for (Container.base c) t [leaf "stdout"])).
Proof.
  intros Hu Ht. unfold Container_stdout.
  assert (F : truthy (Container._stdout c) = false)
    by (rewrite Hu; reflexivity).
  rewrite F. apply query_ok. exact Ht.
Qed.

(** ** [sync] and the terminal methods without a guard *)

Lemma sync_run {A} (this : A) a c w t :
  heap w !! a = Some t ->
  bind (spread_literal a [leaf "sync"])
    (fun qt => bind (computeQuery qt c) (fun _ => ret this)) w
  = (match remote w (sent w) {| req_tree := t ++ [leaf "sync"];
                                req_client := c |} with
     | Ok _ => Ok this
     | Throw e => Throw e
     end,
     with_sent (with_array w (t ++ [leaf "sync"]))
       {| req_tree := t ++ [leaf "sync"]; req_client := c |}).
Proof.
  intros Ht. unfold bind at 1. rewrite (spread_literal_ok _ _ _ _ Ht).
  unfold bind, computeQuery. rewrite with_array_fresh.
  cbn [remote sent with_array].
  destruct (remote w (sent w) _); reflexivity.
Qed.

(** X6. [defaultPlatform] and [checkVersionCompatibility] of [Client]
    send a request on every call and return the engine's answer, also
    when the fields [_defaultPlatform] and [_checkVersionCompatibility]
    were given to the constructor: these two methods have no shortcut. *)
Theorem client_terminals_always_ask (this : Client.t) (version : jsstring)
  (w : World) (t : list QueryTree) :
  heap w !! _queryTree (Client.base this) = Some t ->
  Client_defaultPlatform this w
  = (remote w (sent w)
       (request_for (Client.base this) t [leaf "defaultPlatform"]),
     with_sent (with_array w (t ++ [leaf "defaultPlatform"]))
       (request_for (Client.base this) t [leaf "defaultPlatform"]))
  /\ Client_checkVersionCompatibility this version w
     = (remote w (sent w)
          (request_for (Client.base this) t
             [checkVersionCompatibility_node version]),
        with_sent
          (with_array w (t ++ [checkVersionCompatibility_node version]))
          (request_for (Client.base this) t
             [checkVersionCompatibility_node version])).
Proof.
  intros Ht. split; apply query_ok; exact Ht.
Qed.

(** X7. [envVariable(name)] and [label(name)] test one field for all
    names: when the field is truthy they return it for every name and
    send nothing, so two different names get the same answer; when it is
    not, the request carries the name that was asked. *)
Theorem cached_lookup_ignores_the_name (this : Container.t)
  (name name' : jsstring) (w : World) (t : list QueryTree) :
  heap w !! _queryTree (Container.base this) = Some t ->
  (truthy (Container._envVariable this) = true ->
   Container_envVariable this name w = (Ok (Container._envVariable this), w)
   /\ Container_envVariable this name' w = Container_envVariable this name w)
  /\ (truthy (Container._label this) = true ->
      Container_label this name w = (Ok (Container._label this), w)
      /\ Container_label this name' w = Container_label this name w)
  /\ (truthy (Container._envVariable this) = false ->
      Container_envVariable this name w
      = (remote w (sent w)
           (request_for (Container.base this) t [envVariable_node name]),
         with_sent (with_array w (t ++ [envVariable_node name]))
           (request_for (Container.base this) t [envVariable_node name])))
  /\ (truthy (Container._label this) = false ->
      Container_label this name w
      = (remote w (sent w)
           (request_for (Container.base this) t [label_node name]),
         with_sent (with_array w (t ++ [label_node name]))
           (request_for (Container.base this) t [label_node name]))).
Proof.
  intros Ht. unfold Container_envVariable, Container_label.
  split; [| split; [| split]]; intros E; rewrite E.
  - split; reflexivity.
  - split; reflexivity.
  - apply query_ok; exact Ht.
  - apply query_ok; exact Ht.
Qed.

(** ** The endpoint, further *)

Lemma split_head_app sep h p :
  sep ∉ h -> split_head sep (h ++ sep :: p) = h.
Proof.
  induction h as [| c h IH]; intros H; simpl.
  - rewrite N.eqb_refl. reflexivity.
  - destruct (N.eqb_spec c sep) as [-> | N].
    + exfalso. apply H. apply list_elem_of_here.
    + rewrite IH; [reflexivity |].
      intros I. apply H. apply list_elem_of_further. exact I.
Qed.

Lemma split_head_id sep h : sep ∉ h -> split_head sep h = h.
Proof.
  induction h as [| c h IH]; intros H; simpl; [reflexivity |].
  destruct (N.eqb_spec c sep) as [-> | N].
  - exfalso. apply H. apply list_elem_of_here.
  - rewrite IH; [reflexivity |].
    intros I. apply H. apply list_elem_of_further. exact I.
Qed.

Lemma startsWith_app sep h p pat :
  sep ∉ pat -> startsWith (h ++ sep :: p) pat = startsWith h pat.
Proof.
  revert h. induction pat as [| c pat IH]; intros h H.
  - destruct h; reflexivity.
  - assert (Hc : c <> sep)
      by (intros ->; apply H; apply list_elem_of_here).
    assert (Hp : sep ∉ pat)
      by (intros I; apply H; apply list_elem_of_further; exact I).
    destruct h as [| d h]; simpl.
    + destruct (N.eqb_spec c sep); [contradiction | reflexivity].
    + rewrite (IH h Hp). reflexivity.
Qed.

(** X8. The port plays no part in the choice of the scheme: a host
    without a colon gets the same scheme with any port after it. *)
Theorem scheme_ignores_the_port (h p : jsstring) :
  colon ∉ h -> scheme_of (h ++ colon :: p) = scheme_of h.
Proof.
  intros H. unfold scheme_of.
  rewrite split_head_app, split_head_id by exact H.
  rewrite startsWith_app; [reflexivity |].
  apply (bool_decide_unpack _). vm_compute. reflexivity.
Qed.

(** ** Lifting, further *)

Lemma envVariables_run (this : Container.t) w t :
  heap w !! _queryTree (Container.base this) = Some t ->
  Container_envVariables this w
  = match remote w (sent w)
            (request_for (Container.base this) t variables_selection) with
    | Ok response =>
        array_map response (fun r =>
          name <- get_prop r (js "name") ;;
          value <- get_prop r (js "value") ;;
          EnvVariable_new
            (child_config (get_queryTree (Container.base this))
               (Container.base this)) name value)
          (with_sent (with_array w (t ++ variables_selection))
             (request_for (Container.base this) t variables_selection))
    | Throw e =>
        (Throw e,
         with_sent (with_array w (t ++ variables_selection))
           (request_for (Container.base this) t variables_selection))
    end.
Proof.
  intros Ht. unfold Container_envVariables.
  unfold bind at 1 2. unfold bind at 1.
  rewrite (spread_literal_ok _ _ _ _ Ht).
  unfold computeQuery. rewrite with_array_fresh.
  cbn [remote sent with_array].
  unfold request_for, variables_selection.
  destruct (remote w (sent w) _); reflexivity.
Qed.

Lemma variables_lifted (b : BaseClient) items w :
  constructed b -> Forall readable items ->
  mapM (fun r =>
          name <- get_prop r (js "name") ;;
          value <- get_prop r (js "value") ;;
          EnvVariable_new (child_config (get_queryTree b) b) name value)
    items w
  = (Ok (lift_variable (lifted w b) <$> items), w).
Proof.
  intros Hc Hr. apply (mapM_ok _ (lift_variable (lifted w b))).
  intros r Hin. rewrite Forall_forall in Hr.
  apply lift_variable_ok; [exact Hc | apply Hr; exact Hin].
Qed.

Lemma mapM_throw {A B} (f : A -> M B) (g : A -> B) pre r post e w :
  (forall a, a ∈ pre -> f a w = (Ok (g a), w)) ->
  f r w = (Throw e, w) ->
  mapM f (pre ++ r :: post) w = (Throw e, w).
Proof.
  induction pre as [| a pre IH]; intros H E; simpl.
  - unfold bind. rewrite E. reflexivity.
  - unfold bind at 1. rewrite (H a) by apply list_elem_of_here.
    unfold bind at 1. rewrite IH; [reflexivity | | exact E].
    intros a' Ha'. apply H. apply list_elem_of_further. exact Ha'.
Qed.

(** X9. After [envVariables], reading [name] or [value] of a lifted
    variable whose field is truthy returns the fetched field and sends
    nothing more. When the fetched value is not truthy (an empty value),
    [value] sends a second request, and its tree is the container's nodes
    followed by [value] alone: the [envVariables] selection is not part
    of it. *)
Theorem lifted_variable_reads (this : Container.t) (w : World)
  (t : list QueryTree) (items : list Value) :
  heap w !! _queryTree (Container.base this) = Some t ->
  constructed (Container.base this) ->
  Forall readable items ->
  remote w (sent w) (request_for (Container.base this) t variables_selection)
  = Ok (VArr items) ->
  exists es w1,
    Container_envVariables this w = (Ok es, w1)
    /\ length es = length items
    /\ sent w1
       = sent w ++ [request_for (Container.base this) t variables_selection]
    /\ forall i e r,
         es !! i = Some e -> items !! i = Some r ->
         (truthy (field r (js "name")) = true ->
          EnvVariable_name e w1 = (Ok (field r (js "name")), w1))
         /\ (truthy (field r (js "value")) = true ->
             EnvVariable_value e w1 = (Ok (field r (js "value")), w1))
         /\ (truthy (field r (js "value")) = false ->
             exists rq w2,
               EnvVariable_value e w1 = (remote w1 (sent w1) rq, w2)
               /\ req_tree rq = t ++ [leaf "value"]
               /\ sent w2 = sent w1 ++ [rq]).
Proof.
  intros Ht Hc Hr Ha.
  eexists _, _. split; [| split; [| split]].
  - rewrite (envVariables_run _ _ _ Ht), Ha. unfold array_map.
    apply variables_lifted; assumption.
  - rewrite length_fmap. reflexivity.
  - reflexivity.
  - intros i e r He Hi.
    rewrite list_lookup_fmap, Hi in He. injection He as <-.
    split; [| split]; intros Hf.
    + match goal with
      | |- EnvVariable_name ?e ?w0 = _ =>
          exact (call_cached (EnvVariableName e) w0 Hf)
      end.
    + match goal with
      | |- EnvVariable_value ?e ?w0 = _ =>
          exact (call_cached (EnvVariableValue e) w0 Hf)
      end.
    + eexists _, _. split; [| split].
      * match goal with
        | |- EnvVariable_value ?e ?w0 = _ =>
            apply (call_uncached (EnvVariableValue e) w0 t Hf)
        end.
        apply with_array_frame. exact Ht.
      * reflexivity.
      * reflexivity.
Qed.

(** X10. The edge cases of [envVariables]. The request is sent in every
    case. An empty array gives an empty list; an error of the engine is
    handed on as it is; an answer that is not an array, or an array with
    [null] in it, ends in a [TypeError]. *)
Theorem lifting_edge_cases (this : Container.t) (w : World)
  (t : list QueryTree) :
  heap w !! _queryTree (Container.base this) = Some t ->
  constructed (Container.base this) ->
  let rq := request_for (Container.base this) t variables_selection in
  let w1 := with_sent (with_array w (t ++ variables_selection)) rq in
  (remote w (sent w) rq = Ok (VArr []) ->
   Container_envVariables this w = (Ok [], w1))
  /\ (forall e,
        remote w (sent w) rq = Throw e ->
        Container_envVariables this w = (Throw e, w1))
  /\ (forall v,
        remote w (sent w) rq = Ok v ->
        (forall items, v <> VArr items) ->
        Container_envVariables this w = (Throw TypeError, w1))
  /\ (forall pre post,
        remote w (sent w) rq = Ok (VArr (pre ++ VNull :: post)) ->
        Forall readable pre ->
        Container_envVariables this w = (Throw TypeError, w1)).
Proof.
  intros Ht Hc rq w1. subst rq w1.
  split; [| split; [| split]].
  - intros Ha. rewrite (envVariables_run _ _ _ Ht), Ha. reflexivity.
  - intros e Ha. rewrite (envVariables_run _ _ _ Ht), Ha. reflexivity.
  - intros v Ha Hv. rewrite (envVariables_run _ _ _ Ht), Ha.
    destruct v; try reflexivity. exfalso. eapply Hv. reflexivity.
  - intros pre post Ha Hr. rewrite (envVariables_run _ _ _ Ht), Ha.
    unfold array_map.
    apply (mapM_throw _ (lift_variable (lifted w (Container.base this)))).
    + intros r Hin. rewrite Forall_forall in Hr.
      etransitivity;
        [apply (lift_variable_ok (Container.base this) r);
           [exact Hc | apply Hr; exact Hin]
        | reflexivity].
    + reflexivity.
Qed.

(** ** The transport of derived objects *)

Lemma client_of_env w w' h auth :
  env w' FLUENTCI_SESSION_ID = env w FLUENTCI_SESSION_ID ->
  client_of w' h auth = client_of w h auth.
Proof. intros E. unfold client_of. rewrite E. reflexivity. Qed.

(** X11. An object built with a session token and the objects derived
    from it by deferred calls have the same transport (URL and headers),
    as long as [FLUENTCI_SESSION_ID] has not changed in between. *)
Theorem derived_objects_keep_the_transport
  (cfg : ClientConfig) (s : jsstring) (w w1 w2 : World) (this : Container.t)
  (d : Deferred) (t : list QueryTree) :
  cfg_sessionToken cfg = Some s ->
  BaseClient_new (Some cfg) w = (Ok (Container.base this), w1) ->
  heap w2 !! _queryTree (Container.base this) = Some t ->
  env w2 FLUENTCI_SESSION_ID = env w FLUENTCI_SESSION_ID ->
  exists o w3,
    invoke this d w2 = (Ok o, w3)
    /\ client (obj_base o) = client (Container.base this).
Proof.
  intros Hs E Ht He.
  pose proof (BaseClient_new_constructed _ _ _ _ E) as Hc.
  destruct (invoke_spec this d w2 t Ht Hc) as (o & Ei & B).
  exists o, (with_array w2 (t ++ [node_of d])). split; [exact Ei |].
  rewrite B. cbn [derived client].
  rewrite BaseClient_new_eq in E. cbv zeta in E.
  cbn [default from_option id] in E. rewrite Hs in E. unfold btoa in E.
  destruct (latin1 _); [| discriminate].
  injection E as E _. rewrite <- E.
  cbn [client clientHost sessionToken to_string].
  destruct s; apply client_of_env; exact He.
Qed.

(** X12. An object built without a session token has the credential
    text [undefined:] in its Authorization header, and every object
    derived from it has the credential text [:] instead: the header
    changes between a root made without token and its children. *)
Theorem tokenless_root_and_children_differ
  (parent : option ClientConfig) (w w1 w2 : World) (this : Container.t)
  (d : Deferred) (t : list QueryTree) :
  cfg_sessionToken (default empty_config parent) = None ->
  BaseClient_new parent w = (Ok (Container.base this), w1) ->
  heap w2 !! _queryTree (Container.base this) = Some t ->
  exists o w3,
    invoke this d w2 = (Ok o, w3)
    /\ header (js "Authorization") (client (Container.base this))
       = Some (js "Basic dW5kZWZpbmVkOg==")
    /\ header (js "Authorization") (client (obj_base o))
       = Some (js "Basic Og==").
Proof.
  intros Hs E Ht.
  pose proof (BaseClient_new_constructed _ _ _ _ E) as Hc.
  destruct (invoke_spec this d w2 t Ht Hc) as (o & Ei & B).
  exists o, (with_array w2 (t ++ [node_of d])). split; [exact Ei |].
  rewrite B. cbn [derived client].
  rewrite BaseClient_new_eq in E. cbv zeta in E.
  rewrite Hs in E. injection E as E _. rewrite <- E.
  split; reflexivity.
Qed.

(** X13. Constructors called without a tree never share one: each call
    makes a new empty array, different from every array in use, and the
    earlier one stays empty. A constructor called with a tree keeps that
    very array and allocates nothing. *)
Theorem roots_have_their_own_tree
  (p1 p2 : option ClientConfig) (w w1 w2 : World) (b1 b2 : BaseClient) :
  queryTree (default empty_config p1) = None ->
  queryTree (default empty_config p2) = None ->
  BaseClient_new p1 w = (Ok b1, w1) ->
  BaseClient_new p2 w1 = (Ok b2, w2) ->
  _queryTree b1 <> _queryTree b2
  /\ heap w !! _queryTree b1 = None
  /\ heap w2 !! _queryTree b1 = Some []
  /\ heap w2 !! _queryTree b2 = Some []
  /\ (forall l cfg w' b,
        queryTree cfg = Some l ->
        BaseClient_new (Some cfg) w = (Ok b, w') ->
        _queryTree b = l /\ w' = w).
Proof.
  intros Q1 Q2 E1 E2.
  rewrite BaseClient_new_eq in E1, E2. cbv zeta in E1, E2.
  rewrite Q1 in E1. rewrite Q2 in E2.
  destruct (btoa _) in E1; [| discriminate].
  destruct (btoa _) in E2; [| discriminate].
  injection E1 as <- <-. injection E2 as <- <-.
  cbn [_queryTree].
  pose proof (with_array_fresh w []) as F1.
  split; [| split; [| split; [| split]]].
  - intros F. apply (fresh_not_allocated (with_array w []) _ _ F1).
    symmetry. exact F.
  - apply not_elem_of_dom, is_fresh.
  - apply with_array_frame. exact F1.
  - apply with_array_fresh.
  - intros l cfg w' b Q E. rewrite BaseClient_new_eq in E. cbv zeta in E.
    cbn [default from_option id] in E. rewrite Q in E.
    destruct (btoa _) in E; [| discriminate].
    injection E as <- <-. split; reflexivity.
Qed.

(** ** A pipeline across classes *)

Lemma Container_directory_spec this p w t :
  heap w !! _queryTree (Container.base this) = Some t ->
  constructed (Container.base this) ->
  Container_directory this p w
  = (Ok {| Directory.base := derived w (Container.base this);
           Directory._id := VUndefined; Directory._export := VUndefined;
           Directory._sync := VUndefined |},
     with_array w (t ++ [directory_node p])).
Proof.
  intros Ht Hc. unfold Container_directory.
  unfold bind; rewrite (spread_literal_ok _ _ _ _ Ht); cbv beta iota.
  cbv beta delta [Directory_of Directory_new bind].
  rewrite (BaseClient_new_child _ _ _ Hc). reflexivity.
Qed.

Lemma Directory_file_spec this q w t :
  heap w !! _queryTree (Directory.base this) = Some t ->
  constructed (Directory.base this) ->
  Directory_file this q w
  = (Ok {| File.base := derived w (Directory.base this);
           File._id := VUndefined; File._contents := VUndefined;
           File._export := VUndefined; File._size := VUndefined;
           File._sync := VUndefined |},
     with_array w (t ++ [file_node q])).
Proof.
  intros Ht Hc. unfold Directory_file.
  unfold bind; rewrite (spread_literal_ok _ _ _ _ Ht); cbv beta iota.
  cbv beta delta [File_of File_new bind].
  rewrite (BaseClient_new_child _ _ _ Hc). reflexivity.
Qed.

(** ** The further theorems at the sample inputs *)

Lemma options_reach_the_node_witness :
  step_opts (SWithExec [js "ls"] (Some [(js "skipEntrypoint", VBool true)]))
  = Some [(js "skipEntrypoint", VBool true)]
  /\ NoDup (keys [(js "skipEntrypoint", VBool true)])
  /\ js "skipEntrypoint" <> metadata_key
  /\ js "args" <> metadata_key
  /\ field (VRec (args_of (withExec_node [js "ls"]
                            (Some [(js "skipEntrypoint", VBool true)]))))
       (js "skipEntrypoint") = VBool true
  /\ field (VRec (args_of (withExec_node [js "ls"]
                            (Some [(js "skipEntrypoint", VBool true)]))))
       (js "args") = VArr [VStr (js "ls")].
Proof.
  assert (Hn : NoDup (keys [(js "skipEntrypoint", VBool true)]))
    by (apply NoDup_singleton).
  assert (H1 : js "skipEntrypoint" <> metadata_key) by discriminate.
  assert (H2 : js "args" <> metadata_key) by discriminate.
  split; [reflexivity |]. split; [exact Hn |].
  split; [exact H1 |]. split; [exact H2 |]. split.
  - apply (proj1 (options_reach_the_node
                    (SWithExec [js "ls"]
                       (Some [(js "skipEntrypoint", VBool true)]))
                    _ (js "skipEntrypoint") eq_refl Hn H1)).
    apply list_elem_of_here.
  - apply (proj2 (options_reach_the_node
                    (SWithExec [js "ls"]
                       (Some [(js "skipEntrypoint", VBool true)]))
                    _ (js "args") eq_refl Hn H2)).
    intros I. apply list_elem_of_singleton in I. discriminate I.
Defined.

Lemma chain_builds_the_tree_in_call_order_witness :
  heap sample_world !! _queryTree sample_base = Some [leaf "container"]
  /\ constructed sample_base
  /\ exists c w',
       run_steps (sample_container VUndefined) sample_steps sample_world
       = (Ok c, w')
       /\ heap w' !! _queryTree (Container.base c)
          = Some ([leaf "container"] ++ (step_node <$> sample_steps))
       /\ sent w' = sent sample_world
       /\ (forall l t0,
             heap sample_world !! l = Some t0 -> heap w' !! l = Some t0)
       /\ clientHost (Container.base c) = clientHost sample_base
       /\ sessionToken (Container.base c) = sessionToken sample_base.
Proof.
  split; [reflexivity |].
  split; [split; [discriminate | reflexivity] |].
  exact (chain_builds_the_tree_in_call_order
           (sample_container VUndefined) sample_steps sample_world
           [leaf "container"] sample_allocated sample_constructed).
Defined.

Lemma client_terminals_always_ask_witness :
  heap sample_world !! _queryTree (Client.base sample_root)
  = Some [leaf "container"]
  /\ truthy (Client._defaultPlatform sample_root) = true
  /\ Client_defaultPlatform sample_root sample_world
     = (remote sample_world (sent sample_world)
          (request_for sample_base [leaf "container"] [leaf "defaultPlatform"]),
        with_sent
          (with_array sample_world
             ([leaf "container"] ++ [leaf "defaultPlatform"]))
          (request_for sample_base [leaf "container"]
             [leaf "defaultPlatform"]))
  /\ Client_checkVersionCompatibility sample_root (js "0.9.3") sample_world
     = (remote sample_world (sent sample_world)
          (request_for sample_base [leaf "container"]
             [checkVersionCompatibility_node (js "0.9.3")]),
        with_sent
          (with_array sample_world
             ([leaf "container"]
              ++ [checkVersionCompatibility_node (js "0.9.3")]))
          (request_for sample_base [leaf "container"]
             [checkVersionCompatibility_node (js "0.9.3")])).
Proof.
  split; [reflexivity |]. split; [reflexivity |].
  exact (client_terminals_always_ask sample_root (js "0.9.3") sample_world
           [leaf "container"] sample_allocated).
Defined.

Lemma cached_lookup_ignores_the_name_witness :
  heap sample_world !! _queryTree sample_base = Some [leaf "container"]
  /\ truthy (Container._envVariable labelled_container) = true
  /\ truthy (Container._label labelled_container) = true
  /\ truthy (Container._envVariable (sample_container VUndefined)) = false
  /\ (Container_envVariable labelled_container (js "PATH") sample_world
      = (Ok (VStr (js "/usr/bin")), sample_world)
      /\ Container_envVariable labelled_container (js "HOME") sample_world
         = Container_envVariable labelled_container (js "PATH") sample_world)
  /\ (Container_label labelled_container (js "version") sample_world
      = (Ok (VStr (js "v1")), sample_world)
      /\ Container_label labelled_container (js "vendor") sample_world
         = Container_label labelled_container (js "version") sample_world)
  /\ Container_envVariable (sample_container VUndefined) (js "PATH") sample_world
     = (remote sample_world (sent sample_world)
          (request_for sample_base [leaf "container"]
             [envVariable_node (js "PATH")]),
        with_sent
          (with_array sample_world
             ([leaf "container"] ++ [envVariable_node (js "PATH")]))
          (request_for sample_base [leaf "container"]
             [envVariable_node (js "PATH")])).
Proof.
  pose proof (cached_lookup_ignores_the_name labelled_container
                (js "PATH") (js "HOME") sample_world [leaf "container"]
                sample_allocated) as (H1 & _ & _ & _).
  pose proof (cached_lookup_ignores_the_name labelled_container
                (js "version") (js "vendor") sample_world [leaf "container"]
                sample_allocated) as (_ & H2 & _ & _).
  pose proof (cached_lookup_ignores_the_name (sample_container VUndefined)
                (js "PATH") (js "HOME") sample_world [leaf "container"]
                sample_allocated) as (_ & _ & H3 & _).
  split; [reflexivity |]. split; [reflexivity |]. split; [reflexivity |].
  split; [reflexivity |].
  split; [exact (H1 eq_refl) |]. split; [exact (H2 eq_refl) |].
  exact (H3 eq_refl).
Defined.

Lemma scheme_ignores_the_port_witness :
  (colon ∉ js "ci.example.com")
  /\ scheme_of (js "ci.example.com" ++ colon :: js "8443")
     = scheme_of (js "ci.example.com").
Proof.
  assert (H : colon ∉ js "ci.example.com")
    by (apply (bool_decide_unpack _); vm_compute; reflexivity).
  split; [exact H |].
  exact (scheme_ignores_the_port (js "ci.example.com") (js "8443") H).
Defined.

Lemma lifted_variable_reads_witness :
  heap sample_world !! _queryTree sample_base = Some [leaf "container"]
  /\ constructed sample_base
  /\ Forall readable [sample_env_entry]
  /\ remote sample_world (sent sample_world)
       (request_for sample_base [leaf "container"] variables_selection)
     = Ok (VArr [sample_env_entry])
  /\ exists es w1,
       Container_envVariables (sample_container VUndefined) sample_world
       = (Ok es, w1)
       /\ length es = length [sample_env_entry]
       /\ sent w1
          = sent sample_world
            ++ [request_for sample_base [leaf "container"] variables_selection]
       /\ forall i e r,
            es !! i = Some e -> [sample_env_entry] !! i = Some r ->
            (truthy (field r (js "name")) = true ->
             EnvVariable_name e w1 = (Ok (field r (js "name")), w1))
            /\ (truthy (field r (js "value")) = true ->
                EnvVariable_value e w1 = (Ok (field r (js "value")), w1))
            /\ (truthy (field r (js "value")) = false ->
                exists rq w2,
                  EnvVariable_value e w1 = (remote w1 (sent w1) rq, w2)
                  /\ req_tree rq = [leaf "container"] ++ [leaf "value"]
                  /\ sent w2 = sent w1 ++ [rq]).
Proof.
  split; [reflexivity |].
  split; [split; [discriminate | reflexivity] |].
  split; [exact sample_entry_readable |].
  split; [reflexivity |].
  exact (lifted_variable_reads (sample_container VUndefined) sample_world
           [leaf "container"] [sample_env_entry]
           sample_allocated sample_constructed sample_entry_readable eq_refl).
Defined.

Lemma lifting_edge_cases_witness :
  heap sample_world !! _queryTree sample_base = Some [leaf "container"]
  /\ constructed sample_base
  /\ fst (Container_envVariables (sample_container VUndefined)
            (answering (Ok (VArr [])))) = Ok []
  /\ fst (Container_envVariables (sample_container VUndefined)
            (answering (Throw (RemoteError (js "down")))))
     = Throw (RemoteError (js "down"))
  /\ fst (Container_envVariables (sample_container VUndefined)
            (answering (Ok (VStr (js "oops"))))) = Throw TypeError
  /\ fst (Container_envVariables (sample_container VUndefined)
            (answering (Ok (VArr ([sample_env_entry] ++ VNull :: [])))))
     = Throw TypeError.
Proof.
  split; [reflexivity |].
  split; [split; [discriminate | reflexivity] |].
  split; [| split; [| split]].
  - rewrite (proj1 (lifting_edge_cases (sample_container VUndefined)
                      (answering (Ok (VArr []))) [leaf "container"]
                      sample_allocated sample_constructed) eq_refl).
    reflexivity.
  - rewrite (proj1 (proj2 (lifting_edge_cases (sample_container VUndefined)
                             (answering (Throw (RemoteError (js "down"))))
                             [leaf "container"]
                             sample_allocated sample_constructed))
               _ eq_refl).
    reflexivity.
  - rewrite (proj1 (proj2 (proj2 (lifting_edge_cases
                                    (sample_container VUndefined)
                                    (answering (Ok (VStr (js "oops"))))
                                    [leaf "container"]
                                    sample_allocated sample_constructed)))
               _ eq_refl); [reflexivity |].
    intros items. discriminate.
  - rewrite (proj2 (proj2 (proj2 (lifting_edge_cases
                                    (sample_container VUndefined)
                                    (answering
                                       (Ok (VArr ([sample_env_entry]
                                                  ++ VNull :: []))))
                                    [leaf "container"]
                                    sample_allocated sample_constructed)))
               [sample_env_entry] [] eq_refl sample_entry_readable).
    reflexivity.
Defined.

Lemma derived_objects_keep_the_transport_witness :
  cfg_sessionToken
    {| queryTree := Some 0%nat; host := Some (js "localhost:8080");
       cfg_sessionToken := Some (js "tok") |} = Some (js "tok")
  /\ BaseClient_new sample_config sample_world = (Ok plain_object, sample_world)
  /\ heap sample_world !! _queryTree plain_object = Some [leaf "container"]
  /\ exists o w3,
       invoke (container_on plain_object VUndefined) (From (js "alpine"))
         sample_world = (Ok o, w3)
       /\ client (obj_base o) = client plain_object.
Proof.
  split; [reflexivity |]. split; [vm_compute; reflexivity |].
  split; [reflexivity |].
  exact (derived_objects_keep_the_transport
           {| queryTree := Some 0%nat; host := Some (js "localhost:8080");
              cfg_sessionToken := Some (js "tok") |}
           (js "tok") sample_world sample_world sample_world
           (container_on plain_object VUndefined) (From (js "alpine"))
           [leaf "container"] eq_refl plain_object_built eq_refl eq_refl).
Defined.

Lemma default_tree_allocated :
  heap (with_array sample_world []) !! _queryTree default_object = Some [].
Proof. reflexivity. Defined.

Lemma tokenless_root_and_children_differ_witness :
  cfg_sessionToken (default empty_config None) = None
  /\ BaseClient_new None sample_world
     = (Ok default_object, with_array sample_world [])
  /\ heap (with_array sample_world []) !! _queryTree default_object = Some []
  /\ exists o w3,
       invoke (container_on default_object VUndefined) (From (js "alpine"))
         (with_array sample_world []) = (Ok o, w3)
       /\ header (js "Authorization") (client default_object)
          = Some (js "Basic dW5kZWZpbmVkOg==")
       /\ header (js "Authorization") (client (obj_base o))
          = Some (js "Basic Og==").
Proof.
  split; [reflexivity |]. split; [vm_compute; reflexivity |].
  split; [reflexivity |].
  exact (tokenless_root_and_children_differ
           None sample_world (with_array sample_world [])
           (with_array sample_world [])
           (container_on default_object VUndefined) (From (js "alpine")) []
           eq_refl default_object_built default_tree_allocated).
Defined.

Lemma second_object_built :
  BaseClient_new None (with_array sample_world [])
  = (Ok second_object, with_array (with_array sample_world []) []).
Proof. vm_compute. reflexivity. Defined.

Lemma roots_have_their_own_tree_witness :
  queryTree (default empty_config None) = None
  /\ BaseClient_new None sample_world
     = (Ok default_object, with_array sample_world [])
  /\ BaseClient_new None (with_array sample_world [])
     = (Ok second_object, with_array (with_array sample_world []) [])
  /\ _queryTree default_object <> _queryTree second_object
  /\ heap sample_world !! _queryTree default_object = None
  /\ heap (with_array (with_array sample_world []) [])
       !! _queryTree default_object = Some []
  /\ heap (with_array (with_array sample_world []) [])
       !! _queryTree second_object = Some []
  /\ (forall l cfg w' b,
        queryTree cfg = Some l ->
        BaseClient_new (Some cfg) sample_world = (Ok b, w') ->
        _queryTree b = l /\ w' = sample_world).
Proof.
  split; [reflexivity |]. split; [vm_compute; reflexivity |].
  split; [vm_compute; reflexivity |].
  exact (roots_have_their_own_tree None None sample_world _ _ _ _
           eq_refl eq_refl default_object_built second_object_built).
Defined.

(** ** The credential can be read back *)

Lemma in_below n c : c < N.of_nat n -> c ∈ below n.
Proof.
  intros H. unfold below. apply list_elem_of_fmap.
  exists (N.to_nat c). split; [symmetry; apply N2Nat.id |].
  apply list_elem_of_In, in_seq. lia.
Qed.

Lemma forall_below n (P : N -> bool) :
  forallb P (below n) = true -> forall c, c < N.of_nat n -> P c = true.
Proof.
  intros H c Hc. rewrite forallb_forall in H.
  apply H, list_elem_of_In, in_below, Hc.
Qed.

Lemma digits_checked : forallb digit_ok (below 64) = true.
Proof. vm_compute. reflexivity. Qed.

Lemma bytes_checked : forallb byte_ok (below 256) = true.
Proof. vm_compute. reflexivity. Qed.

Lemma joins4_checked :
  forallb (fun x => forallb (join_ok 4 x) (below 16)) (below 4) = true.
Proof. vm_compute. reflexivity. Qed.

Lemma joins2_checked :
  forallb (fun x => forallb (join_ok 2 x) (below 4)) (below 16) = true.
Proof. vm_compute. reflexivity. Qed.

Lemma digit_read_back n :
  n < 64 -> b64_value (b64_digit n) = n /\ (b64_digit n =? pad) = false.
Proof.
  intros H. pose proof (forall_below 64 _ digits_checked n H) as C.
  unfold digit_ok in C. apply andb_true_iff in C as [C1 C2].
  split; [apply N.eqb_eq, C1 | apply negb_true_iff, C2].
Qed.

Lemma byte_parts a :
  a <= 255 ->
  N.shiftr a 2 < 64 /\ N.land a 3 < 4
  /\ N.shiftr a 4 < 16 /\ N.land a 15 < 16
  /\ N.shiftr a 6 < 4 /\ N.land a 63 < 64
  /\ N.lor (N.shiftl (N.shiftr a 2) 2) (N.land a 3) = a
  /\ N.lor (N.shiftl (N.shiftr a 4) 4) (N.land a 15) = a
  /\ N.lor (N.shiftl (N.shiftr a 6) 6) (N.land a 63) = a.
Proof.
  intros H.
  assert (C : byte_ok a = true)
    by (apply (forall_below 256 _ bytes_checked); simpl; lia).
  unfold byte_ok in C.
  repeat (apply andb_true_iff in C as [C ?]).
  repeat match goal with
         | H : (_ <? _) = true |- _ => apply N.ltb_lt in H
         | H : (_ =? _) = true |- _ => apply N.eqb_eq in H
         end.
  repeat split; assumption.
Qed.

Lemma join4 x y :
  x < 4 -> y < 16 ->
  N.lor (N.shiftl x 4) y < 64
  /\ N.shiftr (N.lor (N.shiftl x 4) y) 4 = x
  /\ N.land (N.lor (N.shiftl x 4) y) 15 = y.
Proof.
  intros Hx Hy.
  assert (C : join_ok 4 x y = true).
  { apply (forall_below 16 (join_ok 4 x)); [| exact Hy].
    apply (forall_below 4
             (fun x => forallb (join_ok 4 x) (below 16)) joins4_checked).
    exact Hx. }
  unfold join_ok in C. cbv zeta in C.
  apply andb_true_iff in C as [C C3]. apply andb_true_iff in C as [C1 C2].
  apply N.ltb_lt in C1. apply N.eqb_eq in C2, C3.
  repeat split; assumption.
Qed.

Lemma join2 x y :
  x < 16 -> y < 4 ->
  N.lor (N.shiftl x 2) y < 64
  /\ N.shiftr (N.lor (N.shiftl x 2) y) 2 = x
  /\ N.land (N.lor (N.shiftl x 2) y) 3 = y.
Proof.
  intros Hx Hy.
  assert (C : join_ok 2 x y = true).
  { apply (forall_below 4 (join_ok 2 x)); [| exact Hy].
    apply (forall_below 16
             (fun x => forallb (join_ok 2 x) (below 4)) joins2_checked).
    exact Hx. }
  unfold join_ok in C. cbv zeta in C.
  apply andb_true_iff in C as [C C3]. apply andb_true_iff in C as [C1 C2].
  apply N.ltb_lt in C1. apply N.eqb_eq in C2, C3.
  repeat split; assumption.
Qed.

Lemma b64_one a : a <= 255 -> b64_decode (b64_encode [a]) = [a].
Proof.
  intros Ha.
  destruct (byte_parts a Ha) as (A1 & A2 & _ & _ & _ & _ & A7 & _ & _).
  assert (J : 0 < 16) by lia.
  destruct (join4 _ 0 A2 J) as (J1 & J2 & _). rewrite N.lor_0_r in J1, J2.
  destruct (digit_read_back _ A1) as [D1 _].
  destruct (digit_read_back _ J1) as [D2 _].
  cbn [b64_encode b64_decode]. rewrite D1, D2, J2, A7. reflexivity.
Qed.

Lemma b64_two a b :
  a <= 255 -> b <= 255 -> b64_decode (b64_encode [a; b]) = [a; b].
Proof.
  intros Ha Hb.
  destruct (byte_parts a Ha) as (A1 & A2 & _ & _ & _ & _ & A7 & _ & _).
  destruct (byte_parts b Hb) as (_ & _ & B3 & B4 & _ & _ & _ & B8 & _).
  destruct (join4 _ _ A2 B3) as (J1 & J2 & J3).
  assert (Z : 0 < 4) by lia.
  destruct (join2 _ 0 B4 Z) as (K1 & K2 & _). rewrite N.lor_0_r in K1, K2.
  destruct (digit_read_back _ A1) as [D1 _].
  destruct (digit_read_back _ J1) as [D2 _].
  destruct (digit_read_back _ K1) as [D3 P3].
  cbn [b64_encode b64_decode].
  rewrite P3, D1, D2, D3, J2, J3, K2, A7, B8. reflexivity.
Qed.

Lemma b64_group a b c rest :
  a <= 255 -> b <= 255 -> c <= 255 ->
  b64_decode (b64_encode (a :: b :: c :: rest))
  = a :: b :: c :: b64_decode (b64_encode rest).
Proof.
  intros Ha Hb Hc.
  destruct (byte_parts a Ha) as (A1 & A2 & _ & _ & _ & _ & A7 & _ & _).
  destruct (byte_parts b Hb) as (_ & _ & B3 & B4 & _ & _ & _ & B8 & _).
  destruct (byte_parts c Hc) as (_ & _ & _ & _ & C5 & C6 & _ & _ & C9).
  destruct (join4 _ _ A2 B3) as (J1 & J2 & J3).
  destruct (join2 _ _ B4 C5) as (K1 & K2 & K3).
  destruct (digit_read_back _ A1) as [D1 _].
  destruct (digit_read_back _ J1) as [D2 _].
  destruct (digit_read_back _ K1) as [D3 P3].
  destruct (digit_read_back _ C6) as [D4 P4].
  cbn [b64_encode b64_decode].
  rewrite P3, P4, D1, D2, D3, D4, J2, J3, K2, K3, A7, B8, C9. reflexivity.
Qed.

Lemma b64_round_trip_upto n :
  forall s, (length s <= n)%nat -> latin1 s = true ->
            b64_decode (b64_encode s) = s.
Proof.
  induction n as [n IH] using lt_wf_ind. intros s Hn Hl.
  destruct s as [| a [| b [| c rest]]].
  - reflexivity.
  - simpl in Hl. apply andb_true_iff in Hl as [Ha _]. apply N.leb_le in Ha.
    apply b64_one. exact Ha.
  - simpl in Hl. apply andb_true_iff in Hl as [Ha Hl].
    apply andb_true_iff in Hl as [Hb _]. apply N.leb_le in Ha, Hb.
    apply b64_two; assumption.
  - simpl in Hl. apply andb_true_iff in Hl as [Ha Hl].
    apply andb_true_iff in Hl as [Hb Hl].
    apply andb_true_iff in Hl as [Hc Hl]. apply N.leb_le in Ha, Hb, Hc.
    rewrite (b64_group a b c rest Ha Hb Hc). simpl in Hn.
    rewrite (IH (length rest)); [reflexivity | lia | lia | exact Hl].
Qed.

Lemma b64_round_trip s : latin1 s = true -> b64_decode (b64_encode s) = s.
Proof. apply (b64_round_trip_upto (length s)). lia. Qed.

(** X15. The Authorization header identifies the session token: two
    clients built with session tokens have the same header only if the
    tokens are the same, whatever their hosts, trees and environments. *)
Theorem authorization_identifies_the_token
  (cfg1 cfg2 : ClientConfig) (s1 s2 : jsstring) (w1 w2 w1' w2' : World)
  (b1 b2 : BaseClient) :
  cfg_sessionToken cfg1 = Some s1 ->
  cfg_sessionToken cfg2 = Some s2 ->
  BaseClient_new (Some cfg1) w1 = (Ok b1, w1') ->
  BaseClient_new (Some cfg2) w2 = (Ok b2, w2') ->
  header (js "Authorization") (client b1)
  = header (js "Authorization") (client b2) ->
  s1 = s2.
Proof.
  intros H1 H2 E1 E2.
  rewrite BaseClient_new_eq in E1, E2. cbv zeta in E1, E2.
  cbn [default from_option id] in E1, E2. rewrite H1 in E1. rewrite H2 in E2.
  unfold btoa in E1, E2. cbn [to_string] in E1, E2.
  destruct (latin1 (s1 ++ js ":")) eqn:L1; [| discriminate].
  destruct (latin1 (s2 ++ js ":")) eqn:L2; [| discriminate].
  injection E1 as <- _. injection E2 as <- _.
  cbn [client client_of]. unfold header. cbn [headers].
  intros H. simpl in H. injection H as H.
  apply (f_equal b64_decode) in H.
  rewrite !b64_round_trip in H by assumption.
  apply app_inv_tail in H. exact H.
Qed.

Lemma authorization_identifies_the_token_witness :
  BaseClient_new sample_config session_world = (Ok session_object, session_world)
  /\ BaseClient_new sample_config sample_world = (Ok plain_object, sample_world)
  /\ header (js "Authorization") (client session_object)
     = header (js "Authorization") (client plain_object)
  /\ js "tok" = js "tok".
Proof.
  split; [vm_compute; reflexivity |]. split; [vm_compute; reflexivity |].
  split; [reflexivity |].
  exact (authorization_identifies_the_token
           {| queryTree := Some 0%nat; host := Some (js "localhost:8080");
              cfg_sessionToken := Some (js "tok") |}
           {| queryTree := Some 0%nat; host := Some (js "localhost:8080");
              cfg_sessionToken := Some (js "tok") |}
           (js "tok") (js "tok") session_world sample_world _ _ _ _
           eq_refl eq_refl session_object_built plain_object_built eq_refl).
Defined.

(** ** Accessors with and without a guard *)

(** C7. An accessor that tests its field returns a truthy field as it is
    and leaves the world as it is (no array, nothing handed to the
    resolver); with the field [undefined] it hands the resolver the
    receiver's nodes followed by its own node and returns the answer. The
    methods that take a field and do not test it, [defaultPlatform] and
    [checkVersionCompatibility] of [Client] and the three [sync], go to
    the resolver whatever the field holds. *)
Theorem truthy_field_short_circuits (a : Accessor) (w : World) :
  (truthy (cache_of a) = true -> call a w = (Ok (cache_of a), w))
  /\ (forall t,
        cache_of a = VUndefined ->
        heap w !! _queryTree (receiver a) = Some t ->
        exists w',
          call a w
          = (remote w (sent w) (request_for (receiver a) t [selection a]), w')
          /\ sent w' = sent w ++ [request_for (receiver a) t [selection a]]
          /\ heap w' !! _queryTree (receiver a) = Some t)
  /\ (forall (this : Client.t) version t,
        heap w !! _queryTree (Client.base this) = Some t ->
        (exists w',
            Client_defaultPlatform this w
            = (remote w (sent w)
                 (request_for (Client.base this) t [leaf "defaultPlatform"]),
               w'))
        /\ (exists w',
              Client_checkVersionCompatibility this version w
              = (remote w (sent w)
                   (request_for (Client.base this) t
                      [checkVersionCompatibility_node version]),
                 w')))
  /\ (forall (this : Container.t) t,
        heap w !! _queryTree (Container.base this) = Some t ->
        exists w',
          Container_sync this w
          = (match remote w (sent w)
                     (request_for (Container.base this) t [leaf "sync"]) with
             | Ok _ => Ok this
             | Throw e => Throw e
             end, w'))
  /\ (forall (this : Directory.t) t,
        heap w !! _queryTree (Directory.base this) = Some t ->
        exists w',
          Directory_sync this w
          = (match remote w (sent w)
                     (request_for (Directory.base this) t [leaf "sync"]) with
             | Ok _ => Ok this
             | Throw e => Throw e
             end, w'))
  /\ (forall (this : File.t) t,
        heap w !! _queryTree (File.base this) = Some t ->
        exists w',
          File_sync this w
          = (match remote w (sent w)
                     (request_for (File.base this) t [leaf "sync"]) with
             | Ok _ => Ok this
             | Throw e => Throw e
             end, w')).
Proof.
  split; [apply call_cached |].
  split.
  { intros t Hu Ht. eexists. split; [| split].
    - apply call_uncached; [rewrite Hu; reflexivity | exact Ht].
    - reflexivity.
    - exact (with_array_frame w _ _ _ Ht). }
  split.
  { intros this version t Ht.
    split; eexists; apply query_ok; exact Ht. }
  split; [| split]; intros this t Ht; eexists; apply sync_run; exact Ht.
Qed.

(** C7, as stated, fails twice: an environment variable built with the
    empty string as its value asks the engine for the value, and a client
    built with a default platform asks the engine for the platform. *)
Lemma field_is_not_always_returned :
  ~ prepopulated_field_is_returned /\ ~ client_field_is_returned.
Proof.
  split; intros H.
  - specialize (H (EnvVariableValue (sample_variable (VStr []))) sample_world).
    simpl cache_of in H.
    assert (E : VStr [] <> VUndefined) by discriminate.
    apply H in E. apply (f_equal fst) in E. vm_compute in E. discriminate E.
  - specialize (H sample_root sample_world).
    assert (E : Client._defaultPlatform sample_root <> VUndefined)
      by discriminate.
    apply H in E. apply (f_equal fst) in E. vm_compute in E. discriminate E.
Qed.

Lemma truthy_field_short_circuits_witness :
  (truthy (cache_of (EnvVariableName (sample_variable (VStr [])))) = true
   /\ call (EnvVariableName (sample_variable (VStr []))) sample_world
      = (Ok (VStr (js "EMPTY")), sample_world))
  /\ (cache_of (FileSize (sample_file VUndefined)) = VUndefined
      /\ heap sample_world !! _queryTree sample_base = Some [leaf "container"]
      /\ exists w',
           call (FileSize (sample_file VUndefined)) sample_world
           = (remote sample_world (sent sample_world)
                (request_for sample_base [leaf "container"] [leaf "size"]), w')
           /\ sent w'
              = sent sample_world
                ++ [request_for sample_base [leaf "container"] [leaf "size"]]
           /\ heap w' !! _queryTree sample_base = Some [leaf "container"])
  /\ (truthy (Client._defaultPlatform sample_root) = true
      /\ exists w',
           Client_defaultPlatform sample_root sample_world
           = (remote sample_world (sent sample_world)
                (request_for sample_base [leaf "container"]
                   [leaf "defaultPlatform"]), w'))
  /\ (truthy (Directory._sync sample_directory) = true
      /\ exists w',
           Directory_sync sample_directory sample_world
           = (Ok sample_directory, w')).
Proof.
  split; [| split; [| split]].
  - split; [reflexivity |].
    exact (proj1 (truthy_field_short_circuits
                    (EnvVariableName (sample_variable (VStr []))) sample_world)
             eq_refl).
  - split; [reflexivity |]. split; [reflexivity |].
    exact (proj1 (proj2 (truthy_field_short_circuits
                           (FileSize (sample_file VUndefined)) sample_world))
             [leaf "container"] eq_refl sample_allocated).
  - split; [reflexivity |].
    exact (proj1 (proj1 (proj2 (proj2 (truthy_field_short_circuits
                                         (FileSize (sample_file VUndefined))
                                         sample_world)))
                    sample_root (js "0.9.3") [leaf "container"]
                    sample_allocated)).
  - split; [reflexivity |].
    exact (proj1 (proj2 (proj2 (proj2 (proj2 (truthy_field_short_circuits
                                                (FileSize
                                                   (sample_file VUndefined))
                                                sample_world)))))
             sample_directory [leaf "container"] sample_allocated).
Defined.

(** ** Connection contexts and the tree *)

Lemma set_prop_free k v o :
  carries_object v = false -> object_free o -> object_free (set_prop k v o).
Proof.
  intros Hv. unfold object_free.
  induction o as [| [k1 v1] o IH]; intros H; cbn [set_prop].
  - apply List.Forall_cons; [exact Hv | apply List.Forall_nil].
  - apply Forall_cons in H as [H1 H2].
    destruct (decide (k1 = k)).
    + apply List.Forall_cons; [exact Hv | exact H2].
    + apply List.Forall_cons; [exact H1 | apply IH, H2].
Qed.

Lemma spread_props_free opts o :
  object_free (default [] opts) -> object_free o ->
  object_free (spread_props opts o).
Proof.
  destruct opts as [ps |]; cbn [spread_props]; [| auto].
  change (default [] (Some ps)) with ps.
  revert o. induction ps as [| [k v] ps IH]; intros o Hp Ho;
    cbn [fold_left fst snd]; [exact Ho |].
  apply Forall_cons in Hp as [Hv Hp].
  apply IH; [exact Hp | apply set_prop_free; assumption].
Qed.

Lemma strings_free (l : list jsstring) :
  carries_object (VArr (VStr <$> l)) = false.
Proof. cbn [carries_object]. induction l; simpl; auto. Qed.

Ltac free_literal :=
  repeat first
    [ apply List.Forall_nil
    | apply List.Forall_cons; [first [reflexivity | apply strings_free] |] ].

Lemma node_of_free d :
  takes_object d = false ->
  object_free (default [] (deferred_opts d)) ->
  node_object_free (node_of d).
Proof.
  intros Hd Ho. unfold node_object_free.
  destruct d; try discriminate; erewrite args_of_some by reflexivity;
    cbn [deferred_opts] in Ho;
    try (apply spread_props_free; [exact Ho |]); free_literal.
Qed.

Lemma step_node_free s :
  step_takes_object s = false ->
  object_free (default [] (step_opts s)) ->
  node_object_free (step_node s).
Proof.
  intros Hs Ho. unfold node_object_free.
  destruct s; try discriminate; erewrite args_of_some by reflexivity;
    cbn [step_opts] in Ho;
    try (apply set_prop_free; [reflexivity |]);
    try (apply spread_props_free; [exact Ho |]); free_literal.
Qed.

(** C9. Every constructor yields an object with a usable connection
    context, and a deferred call hands the receiver's host and session
    token on unchanged. The receiver's connection context is never written
    into the tree: the new tree is the receiver's nodes followed by a node
    made of the operation name and the arguments of the call only, so two
    receivers with equal trees and different connection contexts get equal
    trees. A node holds no endpoint and no credential as long as the call
    is given no Chainable Object, and a tree free of them stays free of
    them; [build], [withMountedSecret] and [withSecretVariable] write the
    object they are given into the node, with the host, token and
    transport that object has. *)
Theorem context_is_carried_beside_the_tree :
  (forall parent w b w',
      BaseClient_new parent w = (Ok b, w') -> constructed b)
  /\ (forall (this : Container.t) d w t,
        heap w !! _queryTree (Container.base this) = Some t ->
        constructed (Container.base this) ->
        exists o w',
          invoke this d w = (Ok o, w')
          /\ clientHost (obj_base o) = clientHost (Container.base this)
          /\ sessionToken (obj_base o) = sessionToken (Container.base this)
          /\ constructed (obj_base o)
          /\ heap w' !! _queryTree (obj_base o) = Some (t ++ [node_of d]))
  /\ (forall (this1 this2 : Container.t) d w1 w2 t,
        heap w1 !! _queryTree (Container.base this1) = Some t ->
        heap w2 !! _queryTree (Container.base this2) = Some t ->
        constructed (Container.base this1) ->
        constructed (Container.base this2) ->
        exists o1 w1' o2 w2',
          invoke this1 d w1 = (Ok o1, w1')
          /\ invoke this2 d w2 = (Ok o2, w2')
          /\ heap w1' !! _queryTree (obj_base o1)
             = heap w2' !! _queryTree (obj_base o2))
  /\ (forall d,
        takes_object d = false ->
        object_free (default [] (deferred_opts d)) ->
        node_object_free (node_of d))
  /\ (forall s,
        step_takes_object s = false ->
        object_free (default [] (step_opts s)) ->
        node_object_free (step_node s))
  /\ (forall (this : Container.t) d w t,
        heap w !! _queryTree (Container.base this) = Some t ->
        constructed (Container.base this) ->
        Forall node_object_free t ->
        takes_object d = false ->
        object_free (default [] (deferred_opts d)) ->
        exists o w' t',
          invoke this d w = (Ok o, w')
          /\ heap w' !! _queryTree (obj_base o) = Some t'
          /\ Forall node_object_free t')
  /\ (forall context source secret path name,
        args_of (build_node context None)
        = [(js "context", VObj CDirectory (Directory.base context))]
        /\ args_of (withMountedSecret_node path source None)
           = [(js "path", VStr path);
              (js "source", VObj CSecret (Secret.base source))]
        /\ args_of (withSecretVariable_node name secret)
           = [(js "name", VStr name);
              (js "secret", VObj CSecret (Secret.base secret))]).
Proof.
  split; [exact BaseClient_new_constructed |].
  split.
  { intros this d w t Ht Hc.
    destruct (invoke_spec this d w t Ht Hc) as (o & E & B).
    exists o, (with_array w (t ++ [node_of d])). rewrite B.
    split; [exact E |]. cbn [derived clientHost sessionToken _queryTree].
    split; [reflexivity |]. split; [reflexivity |].
    split; [exact Hc | apply with_array_fresh]. }
  split.
  { intros this1 this2 d w1 w2 t Ht1 Ht2 Hc1 Hc2.
    destruct (invoke_spec this1 d w1 t Ht1 Hc1) as (o1 & E1 & B1).
    destruct (invoke_spec this2 d w2 t Ht2 Hc2) as (o2 & E2 & B2).
    eexists o1, _, o2, _. split; [exact E1 |]. split; [exact E2 |].
    rewrite B1, B2. cbn [derived _queryTree].
    rewrite !with_array_fresh. reflexivity. }
  split; [exact node_of_free |].
  split; [exact step_node_free |].
  split.
  { intros this d w t Ht Hc Hf Hd Ho.
    destruct (invoke_spec this d w t Ht Hc) as (o & E & B).
    exists o, (with_array w (t ++ [node_of d])), (t ++ [node_of d]).
    rewrite B. split; [exact E |].
    split; [apply with_array_fresh |].
    apply Forall_app. split; [exact Hf |].
    apply List.Forall_cons; [| apply List.Forall_nil].
    apply node_of_free; assumption. }
  intros. repeat split.
Qed.

(** C9, as stated, fails in its second half: the node that [build]
    appends holds the directory it was given, an object with a host, a
    session token and a transport. *)
Lemma build_node_holds_context : ~ no_node_holds_context.
Proof.
  intros H.
  assert (E : exists o w',
             invoke (sample_container VUndefined) (Build sample_directory None)
               sample_world = (Ok o, w')
             /\ heap w' !! _queryTree (obj_base o)
                = Some [leaf "container"; build_node sample_directory None]).
  { eexists _, _. split; reflexivity. }
  destruct E as (o & w' & E1 & E2).
  assert (F : Forall node_object_free [leaf "container"])
    by (apply List.Forall_cons; [apply List.Forall_nil | apply List.Forall_nil]).
  specialize (H (sample_container VUndefined) (Build sample_directory None)
                sample_world [leaf "container"] o w' _
                sample_allocated F E1 E2).
  apply Forall_cons in H as [_ H]. apply Forall_cons in H as [H _].
  unfold node_object_free in H. apply Forall_cons in H as [H _].
  discriminate H.
Qed.

Lemma context_is_carried_beside_the_tree_witness :
  (BaseClient_new None sample_world
   = (Ok default_object, with_array sample_world [])
   /\ constructed default_object)
  /\ (heap sample_world !! _queryTree remote_base = Some [leaf "container"]
      /\ constructed remote_base
      /\ exists o w',
           invoke (container_on remote_base VUndefined)
             (GetDirectory (js "/src")) sample_world = (Ok o, w')
           /\ clientHost (obj_base o) = js "ci.example.com"
           /\ sessionToken (obj_base o) = js "secret"
           /\ constructed (obj_base o)
           /\ heap w' !! _queryTree (obj_base o)
              = Some ([leaf "container"] ++ [directory_node (js "/src")]))
  /\ (heap sample_world !! _queryTree sample_base = Some [leaf "container"]
      /\ constructed sample_base
      /\ exists o1 w1' o2 w2',
           invoke (sample_container VUndefined) (From (js "alpine"))
             sample_world = (Ok o1, w1')
           /\ invoke (container_on remote_base VUndefined) (From (js "alpine"))
                sample_world = (Ok o2, w2')
           /\ heap w1' !! _queryTree (obj_base o1)
              = heap w2' !! _queryTree (obj_base o2))
  /\ (takes_object (WithExec [js "ls"] None) = false
      /\ object_free (default [] (deferred_opts (WithExec [js "ls"] None)))
      /\ node_object_free (withExec_node [js "ls"] None))
  /\ (step_takes_object (SWithExposedPort 8080 None) = false
      /\ node_object_free (withExposedPort_node 8080 None))
  /\ (Forall node_object_free [leaf "container"]
      /\ exists o w' t',
           invoke (sample_container VUndefined) (WithExec [js "ls"] None)
             sample_world = (Ok o, w')
           /\ heap w' !! _queryTree (obj_base o) = Some t'
           /\ Forall node_object_free t').
Proof.
  assert (F0 : object_free []) by apply List.Forall_nil.
  assert (F : Forall node_object_free [leaf "container"])
    by (apply List.Forall_cons; [exact F0 | apply List.Forall_nil]).
  destruct context_is_carried_beside_the_tree
    as (T1 & T2 & T3 & T4 & T5 & T6 & _).
  split; [| split; [| split; [| split; [| split]]]].
  - split; [vm_compute; reflexivity |].
    exact (T1 None sample_world default_object _ default_object_built).
  - split; [reflexivity |].
    split; [split; [discriminate | reflexivity] |].
    exact (T2 (container_on remote_base VUndefined) (GetDirectory (js "/src"))
             sample_world [leaf "container"]
             remote_allocated remote_constructed).
  - split; [reflexivity |].
    split; [split; [discriminate | reflexivity] |].
    exact (T3 (sample_container VUndefined) (container_on remote_base VUndefined)
             (From (js "alpine")) sample_world sample_world [leaf "container"]
             sample_allocated remote_allocated
             sample_constructed remote_constructed).
  - split; [reflexivity |]. split; [exact F0 |].
    exact (T4 (WithExec [js "ls"] None) eq_refl F0).
  - split; [reflexivity |].
    exact (T5 (SWithExposedPort 8080 None) eq_refl F0).
  - split; [exact F |].
    exact (T6 (sample_container VUndefined) (WithExec [js "ls"] None)
             sample_world [leaf "container"]
             sample_allocated sample_constructed F eq_refl F0).
Defined.

(** ** Pipelines and [sync], as handed to the resolver *)

(** X4. A pipeline written from a new root client, through [container]
    and any chain of deferred calls, to [stdout] hands the resolver a
    tree that lists the calls in the order they were written,
    [container], the calls of the chain, [stdout], and returns the
    resolver's answer to it; nothing is handed over before [stdout]. It
    fails only if the resolver does, or if [btoa] refuses the session
    token. *)
Theorem pipeline_resolves_the_calls_in_order
  (parent : option ClientConfig) (opts : option (list (jsstring * Value)))
  (steps : list Step) (w : World) :
  queryTree (default empty_config parent) = None ->
  latin1 (to_string (cfg_sessionToken (default empty_config parent))) = true ->
  exists rq w',
    pipeline_stdout parent opts steps w = (remote w (sent w) rq, w')
    /\ req_tree rq
       = container_node opts :: (step_node <$> steps) ++ [leaf "stdout"].
Proof.
  intros Hq Hl. unfold pipeline_stdout, Client_of, Client_new.
  pose proof (BaseClient_new_eq parent w) as E0. cbv zeta in E0.
  rewrite Hq in E0. unfold btoa in E0. rewrite latin1_app, Hl in E0.
  simpl andb in E0. cbv iota in E0.
  pose proof (BaseClient_new_constructed _ _ _ _ E0) as Hc0.
  set (b0 := {| _queryTree := fresh (dom (heap w)); client := _;
                clientHost := _; sessionToken := _ |}) in *.
  set (w0 := with_array w []) in *.
  assert (Ht0 : heap w0 !! _queryTree b0 = Some []) by apply with_array_fresh.
  assert (E1 : bind (spread_literal (_queryTree b0) [container_node opts])
                 (fun qt => Container_of (child_config qt b0)) w0
               = (Ok (container_on (derived w0 b0) VUndefined),
                  with_array w0 ([] ++ [container_node opts]))).
  { run_step Ht0 Hc0. }
  destruct (run_steps_spec steps
              (container_on (derived w0 b0) VUndefined)
              (with_array w0 ([] ++ [container_node opts]))
              ([] ++ [container_node opts]))
    as (c & w2 & E2 & Hh & Hs & He & Hr & _ & _ & _ & Hu & _).
  { apply with_array_fresh. }
  { exact Hc0. }
  eexists _, _.
  rewrite (bind_ok _ _ _ _ _ (bind_ok _ _ _ _ _ E0)).
  unfold Client_container. cbn [Client.base].
  rewrite (bind_ok _ _ _ _ _ E1).
  rewrite (bind_ok _ _ _ _ _ E2).
  rewrite (stdout_uncached c w2 _ (Hu eq_refl) Hh).
  rewrite Hr, Hs. cbn [remote sent with_array w0].
  split; [reflexivity |].
  cbn [request_for req_tree]. rewrite <- app_assoc. reflexivity.
Qed.

(** X5. [sync] hands the resolver the receiver's nodes followed by
    [sync], drops the answer and returns the receiver itself, with its
    tree and fields as they were; when the resolver fails [sync] fails
    with the same error. A [_sync] field given to the constructor plays
    no part. *)
Theorem sync_returns_the_receiver :
  (forall (this : Container.t) w t,
      heap w !! _queryTree (Container.base this) = Some t ->
      exists w',
        Container_sync this w
        = (match remote w (sent w)
                   (request_for (Container.base this) t [leaf "sync"]) with
           | Ok _ => Ok this
           | Throw e => Throw e
           end, w')
        /\ heap w' !! _queryTree (Container.base this) = Some t)
  /\ (forall (this : Directory.t) w t,
        heap w !! _queryTree (Directory.base this) = Some t ->
        exists w',
          Directory_sync this w
          = (match remote w (sent w)
                     (request_for (Directory.base this) t [leaf "sync"]) with
             | Ok _ => Ok this
             | Throw e => Throw e
             end, w')
          /\ heap w' !! _queryTree (Directory.base this) = Some t)
  /\ (forall (this : File.t) w t,
        heap w !! _queryTree (File.base this) = Some t ->
        exists w',
          File_sync this w
          = (match remote w (sent w)
                     (request_for (File.base this) t [leaf "sync"]) with
             | Ok _ => Ok this
             | Throw e => Throw e
             end, w')
          /\ heap w' !! _queryTree (File.base this) = Some t).
Proof.
  split; [| split]; intros this w t Ht; eexists;
    (split; [apply sync_run; exact Ht | exact (with_array_frame w _ _ _ Ht)]).
Qed.

(** X14. [c.directory(p).file(q).contents()] hands the resolver the
    container's nodes followed by [directory], [file] and [contents] in
    that order and returns its answer; nothing is handed over by the two
    deferred calls, and the container's tree stays as it was. *)
Theorem read_file_resolves_the_path_in_order
  (this : Container.t) (p q : jsstring) (w : World) (t : list QueryTree) :
  heap w !! _queryTree (Container.base this) = Some t ->
  constructed (Container.base this) ->
  exists rq w',
    read_file this p q w = (remote w (sent w) rq, w')
    /\ req_tree rq
       = t ++ [directory_node p; file_node q; leaf "contents"]
    /\ heap w' !! _queryTree (Container.base this) = Some t.
Proof.
  intros Ht Hc. unfold read_file.
  rewrite (bind_ok _ _ _ _ _ (Container_directory_spec this p w t Ht Hc)).
  erewrite bind_ok;
    [| apply (Directory_file_spec _ q _ (t ++ [directory_node p]));
       [apply with_array_fresh | exact Hc]].
  unfold File_contents. cbn [File._contents truthy File.base].
  erewrite query_ok by apply with_array_fresh.
  eexists _, _. split; [reflexivity |].
  split.
  - cbn [req_tree]. rewrite <- !app_assoc. reflexivity.
  - cbn [heap with_sent]. do 3 apply with_array_frame. exact Ht.
Qed.

Lemma pipeline_resolves_the_calls_in_order_witness :
  queryTree (default empty_config None) = None
  /\ latin1 (to_string (cfg_sessionToken (default empty_config None))) = true
  /\ exists rq w',
       pipeline_stdout None None sample_steps sample_world
       = (remote sample_world (sent sample_world) rq, w')
       /\ req_tree rq
          = container_node None :: (step_node <$> sample_steps)
            ++ [leaf "stdout"].
Proof.
  split; [reflexivity |]. split; [reflexivity |].
  exact (pipeline_resolves_the_calls_in_order
           None None sample_steps sample_world eq_refl eq_refl).
Defined.

Lemma sync_returns_the_receiver_witness :
  heap sample_world !! _queryTree sample_base = Some [leaf "container"]
  /\ (exists w',
         Container_sync labelled_container sample_world
         = (Ok labelled_container, w')
         /\ heap w' !! _queryTree sample_base = Some [leaf "container"])
  /\ (exists w',
         Directory_sync sample_directory
           (answering (Throw (RemoteError (js "down"))))
         = (Throw (RemoteError (js "down")), w')
         /\ heap w' !! _queryTree sample_base = Some [leaf "container"])
  /\ (exists w',
         File_sync (sample_file (VNum 0)) sample_world
         = (Ok (sample_file (VNum 0)), w')
         /\ heap w' !! _queryTree sample_base = Some [leaf "container"]).
Proof.
  split; [reflexivity |]. split; [| split].
  - exact (proj1 sync_returns_the_receiver labelled_container sample_world
             [leaf "container"] sample_allocated).
  - exact (proj1 (proj2 sync_returns_the_receiver) sample_directory
             (answering (Throw (RemoteError (js "down"))))
             [leaf "container"] sample_allocated).
  - exact (proj2 (proj2 sync_returns_the_receiver) (sample_file (VNum 0))
             sample_world [leaf "container"] sample_allocated).
Defined.

Lemma read_file_resolves_the_path_in_order_witness :
  heap sample_world !! _queryTree sample_base = Some [leaf "container"]
  /\ constructed sample_base
  /\ exists rq w',
       read_file (sample_container VUndefined) (js "/src") (js "main.go")
         sample_world = (remote sample_world (sent sample_world) rq, w')
       /\ req_tree rq
          = [leaf "container"]
            ++ [directory_node (js "/src"); file_node (js "main.go");
                leaf "contents"]
       /\ heap w' !! _queryTree sample_base = Some [leaf "container"].
Proof.
  split; [reflexivity |].
  split; [split; [discriminate | reflexivity] |].
  exact (read_file_resolves_the_path_in_order (sample_container VUndefined)
           (js "/src") (js "main.go") sample_world [leaf "container"]
           sample_allocated sample_constructed).
Defined.
